(** * Ingestion and retrieval pipeline of the enterprise AI template

    A shallow embedding of the parts of the code base that carry the
    ingestion and retrieval logic:

    - [src/validations/agent.validation.ts]  the zod schema of a chat body;
    - [src/services/upload.service.ts]       [generateSignedUrl];
    - [src/jobs/ingestion.worker.ts]         [processJob];
    - [src/services/agent.service.ts]        [chat].

    Stateful code is written in a small state-and-exception monad over a
    [World] that holds the relational tables, the object store and the log.
    Remote collaborators (object store, model provider, hash, uuid) are
    fields of an environment record, so that every run is a function of the
    world and of what the collaborators answer. *)

From Stdlib Require Import ZArith QArith Lia List Bool Ascii String Sorted Permutation.
From stdpp Require Import base option list strings pretty gmap.

Set Warnings "-register-all".

Local Open Scope string_scope.
Local Open Scope list_scope.

(** ** JSON values, as delivered by the body parser *)

Module Json.

Inductive json : Type :=
  | JNull
  | JBool (b : bool)
  | JNum (q : Q)
  | JStr (s : string)
  | JArr (l : list json)
  | JObj (fields : list (string * json)).

(** Property access [o[k]] on a parsed object: the first binding of [k]. *)
Fixpoint field (k : string) (fields : list (string * json)) : option json :=
  match fields with
  | [] => None
  | (k', v) :: rest => if String.eqb k k' then Some v else field k rest
  end.

End Json.
Import Json.

(** ** Chat body validation ([agent.validation.ts]) *)

Module AgentValidation.

Inductive MsgRole := RoleUser | RoleAssistant | RoleSystem | RoleData.

Record Message := mkMessage { role : MsgRole; content : string }.

#[global] Instance MsgRole_eq_dec : EqDecision MsgRole.
Proof. solve_decision. Defined.

(** [z.enum(['user', 'assistant', 'system', 'data'])] *)
Definition roleEnum (j : json) : option MsgRole :=
  match j with
  | JStr s =>
      if String.eqb s "user" then Some RoleUser
      else if String.eqb s "assistant" then Some RoleAssistant
      else if String.eqb s "system" then Some RoleSystem
      else if String.eqb s "data" then Some RoleData
      else None
  | _ => None
  end.

(** [z.string()] *)
Definition zString (j : json) : option string :=
  match j with JStr s => Some s | _ => None end.

(** [messageSchema = z.object({ role: z.enum([...]), content: z.string() })];
    a zod object schema strips the keys it does not know. *)
Definition messageSchema (j : json) : option Message :=
  match j with
  | JObj fs =>
      match field "role" fs, field "content" fs with
      | Some r, Some c =>
          match roleEnum r, zString c with
          | Some r', Some c' => Some (mkMessage r' c')
          | _, _ => None
          end
      | _, _ => None
      end
  | _ => None
  end.

(** [z.array(messageSchema)]: every element has to parse. *)
Fixpoint zArrayMessages (l : list json) : option (list Message) :=
  match l with
  | [] => Some []
  | j :: rest =>
      match messageSchema j, zArrayMessages rest with
      | Some m, Some ms => Some (m :: ms)
      | _, _ => None
      end
  end.

(** [chatBodySchema = z.object({ messages: z.array(messageSchema).min(1) })] *)
Definition chatBodySchema (body : json) : option (list Message) :=
  match body with
  | JObj fs =>
      match field "messages" fs with
      | Some (JArr l) =>
          match zArrayMessages l with
          | Some ms => if (1 <=? length ms)%nat then Some ms else None
          | None => None
          end
      | _ => None
      end
  | _ => None
  end.

(** The shape the chat interface describes: roles [user] and [assistant]
    only, at least one message, the last one from the user. *)
Definition well_shaped (ms : list Message) : Prop :=
  ms <> [] /\
  Forall (fun m => role m = RoleUser \/ role m = RoleAssistant) ms /\
  (exists m, last ms = Some m /\ role m = RoleUser).

(** What one element of [messages] has to look like for the schema. *)
Definition message_shape (j : json) (m : Message) : Prop :=
  exists fs r c,
    j = JObj fs /\ field "role" fs = Some (JStr r) /\
    field "content" fs = Some (JStr c) /\
    In r ["user"; "assistant"; "system"; "data"] /\
    roleEnum (JStr r) = Some (role m) /\ content m = c.

End AgentValidation.

(** ** The world: relational tables, object store, log and call trace *)

Module Store.

Inductive Role := USER | ADMIN | CONTRIBUTOR.

Inductive FileStatus := PENDING | PROCESSING | COMPLETED | FAILED | DUPLICATE.

#[global] Instance Role_eq_dec : EqDecision Role.
Proof. solve_decision. Defined.

#[global] Instance FileStatus_eq_dec : EqDecision FileStatus.
Proof. solve_decision. Defined.

Record User := mkUser { u_id : string; u_role : Role }.

(** A row of the [File] table. *)
Record File := mkFile {
  id : string;
  fileKey : string;
  originalName : string;
  fileHash : option string;
  mimeType : string;
  status : FileStatus;
  userId : string;
  isPublic : bool }.

Definition Bytes := list Byte.byte.

(** An embedding; the floats of the store are read as rationals. *)
Definition Vec := list Q.

(** A row of the [Document] table (one embedded chunk). *)
Record Document := mkDocument {
  doc_content : string;
  doc_metadata : list (string * json);
  doc_userId : string;
  doc_fileId : string;
  doc_embedding : Vec }.

(** What [GetObjectCommand] answers: the body stream may be missing. *)
Record S3Object := mkS3Object { Body : option Bytes }.

(** A thrown JavaScript error: its [name], its [message] and, for errors of
    the storage SDK, [$metadata.httpStatusCode]. *)
Record Err := mkErr {
  err_name : string;
  err_message : string;
  err_httpStatusCode : option Z }.

Inductive Level := Info | Warn | Error.

(** Every call that leaves the process, by call site. *)
Inductive Op :=
  | OpFindUnique | OpMarkProcessing | OpGetObject | OpDeleteReservation
  | OpReadBody | OpFindDuplicate | OpDeleteObject | OpMarkDuplicate
  | OpStoreHash | OpPdfProxy | OpPdfText | OpImageText | OpMarkEmpty
  | OpSplit | OpEmbedChunk (i : nat) | OpInsertChunk (i : nat)
  | OpMarkCompleted | OpMarkFailed
  | OpCreateFile | OpPresignPut
  | OpRewrite | OpEmbedQuery | OpQuery | OpPresignGet (i : nat) | OpStream.

#[global] Instance Op_eq_dec : EqDecision Op.
Proof. solve_decision. Defined.

Record World := mkWorld {
  files : gmap string File;
  documents : list Document;
  bucket : gmap string S3Object;
  logs : list (Level * string);
  calls : list Op }.

Definition set_files (f : gmap string File -> gmap string File) (w : World) : World :=
  mkWorld (f (files w)) (documents w) (bucket w) (logs w) (calls w).

Definition set_documents (f : list Document -> list Document) (w : World) : World :=
  mkWorld (files w) (f (documents w)) (bucket w) (logs w) (calls w).

Definition set_bucket (f : gmap string S3Object -> gmap string S3Object) (w : World) : World :=
  mkWorld (files w) (documents w) (f (bucket w)) (logs w) (calls w).

Definition add_log (l : Level) (msg : string) (w : World) : World :=
  mkWorld (files w) (documents w) (bucket w) (logs w ++ [(l, msg)]) (calls w).

Definition add_call (o : Op) (w : World) : World :=
  mkWorld (files w) (documents w) (bucket w) (logs w) (calls w ++ [o]).

(** [w'] holds the tables and the objects of [w]. *)
Definition sameTables (w w' : World) : Prop :=
  files w' = files w /\ documents w' = documents w /\ bucket w' = bucket w.

(** The calls made from [w] to [w']. *)
Definition callsSince (w w' : World) (ops : list Op) : Prop :=
  calls w' = calls w ++ ops.

(** Rows of the [File] table are stored under their [id]. *)
Definition keyed (w : World) : Prop :=
  map_Forall (fun k f => id f = k) (files w).

Definition with_status (s : FileStatus) (f : File) : File :=
  mkFile (id f) (fileKey f) (originalName f) (fileHash f) (mimeType f) s
         (userId f) (isPublic f).

Definition with_hash (h : string) (f : File) : File :=
  mkFile (id f) (fileKey f) (originalName f) (Some h) (mimeType f) (status f)
         (userId f) (isPublic f).

(** What a PDF extraction hands back: one merged string or one per page. *)
Inductive PdfText := Merged (s : string) | Pages (l : list string).

(** A chunk produced by the text splitter. *)
Record Chunk := mkChunk { pageContent : string; metadata : list (string * json) }.

(** The collaborators.  [fault o = Some e] makes the call at site [o] reject
    with [e]; the other fields are what the collaborator answers when the
    call goes through. *)
Record Env := mkEnv {
  fault : Op -> option Err;
  sha256hex : Bytes -> string;
  pdfText : Bytes -> PdfText;
  describeImage : Bytes -> string;
  utf8 : Bytes -> string;
  createDocuments : string -> list Chunk;
  embedText : string -> Vec;
  cosineDistance : Vec -> Vec -> Q;
  rewriteQuery : list AgentValidation.Message -> string;
  presignGet : string -> string;
  presignPut : string -> string;
  systemPromptFor : string -> string;
  uuidv4 : string;
  newFileId : string }.

End Store.
Import Store.

(** ** A state-and-exception monad over the world *)

Module Eff.

Inductive Outcome (A : Type) : Type :=
  | Ok (a : A)
  | Throw (e : Err).
Arguments Ok {A} a.
Arguments Throw {A} e.

Definition M (A : Type) : Type := World -> Outcome A * World.

Definition ret {A} (a : A) : M A := fun w => (Ok a, w).

Definition bind {A B} (m : M A) (k : A -> M B) : M B :=
  fun w => match m w with
           | (Ok a, w') => k a w'
           | (Throw e, w') => (Throw e, w')
           end.

Definition throw {A} (e : Err) : M A := fun w => (Throw e, w).

(** [try { m } catch (error) { h error }]; the effects of [m] up to the
    throw stay in the world. *)
Definition tryCatch {A} (m : M A) (h : Err -> M A) : M A :=
  fun w => match m w with
           | (Ok a, w') => (Ok a, w')
           | (Throw e, w') => h e w'
           end.

Definition modify (f : World -> World) : M unit := fun w => (Ok tt, f w).

Definition gets {A} (f : World -> A) : M A := fun w => (Ok (f w), w).

Definition logger (l : Level) (msg : string) : M unit := modify (add_log l msg).

End Eff.
Import Eff.

Declare Scope eff_scope.
Delimit Scope eff_scope with eff.
Notation "'let*' x ':=' m 'in' k" := (bind m (fun x => k))
  (at level 10, x name, m at level 100, k at level 200) : eff_scope.
Notation "m ';;' k" := (bind m (fun _ => k))
  (at level 100, k at level 200, right associativity) : eff_scope.

(** ** Primitive calls on the collaborators *)

Module Prim.
Section WithEnv.
Context (env : Env).
Local Open Scope eff_scope.

(** A call at site [o]: it is recorded, and rejects when the environment
    says so. *)
Definition call (o : Op) : M unit :=
  fun w => match fault env o with
           | Some e => (Throw e, add_call o w)
           | None => (Ok tt, add_call o w)
           end.

(** [new Error(msg)] *)
Definition jsError (msg : string) : Err := mkErr "Error" msg None.

(** [new ApiError(statusCode, msg)] *)
Definition ApiError (statusCode : Z) (msg : string) : Err :=
  mkErr "ApiError" msg (Some statusCode).

(** The error of the client when the row of an update or delete is missing. *)
Definition recordNotFound : Err :=
  mkErr "PrismaClientKnownRequestError" "Record to update not found." None.

(** The error of the client on a violated foreign key or unique constraint. *)
Definition constraintFailed : Err :=
  mkErr "PrismaClientKnownRequestError" "Constraint failed." None.

(** The error of the object store for a key that holds no object. *)
Definition noSuchKey : Err :=
  mkErr "NoSuchKey" "The specified key does not exist." (Some 404%Z).

(** [`${error}`] *)
Definition errToString (e : Err) : string := err_name e +:+ ": " +:+ err_message e.

(** [prisma.file.findUnique({ where: { id } })] *)
Definition findUnique (o : Op) (fileId : string) : M (option File) :=
  call o ;; gets (fun w => files w !! fileId).

(** [prisma.file.update({ where: { id }, data })] *)
Definition fileUpdate (o : Op) (fileId : string) (data : File -> File) : M unit :=
  call o ;;
  let* row := gets (fun w => files w !! fileId) in
  match row with
  | None => throw recordNotFound
  | Some f => modify (set_files (insert fileId (data f)))
  end.

(** [prisma.file.delete({ where: { id } })]; the chunks of the file go with
    it ([ON DELETE CASCADE] on [Document.fileId]). *)
Definition fileDelete (o : Op) (fileId : string) : M unit :=
  call o ;;
  let* row := gets (fun w => files w !! fileId) in
  match row with
  | None => throw recordNotFound
  | Some _ =>
      modify (set_files (delete fileId)) ;;
      modify (set_documents
                (List.filter (fun d => negb (String.eqb (doc_fileId d) fileId))))
  end.

(** [prisma.file.findFirst({ where })]: some row that satisfies [where]. *)
Definition findFirst (o : Op) (where_ : File -> bool) : M (option File) :=
  call o ;;
  gets (fun w => head (List.filter where_ (snd <$> map_to_list (files w)))).

(** [prisma.file.create({ data })] *)
Definition fileCreate (o : Op) (f : File) : M File :=
  call o ;;
  let* row := gets (fun w => files w !! id f) in
  match row with
  | Some _ => throw constraintFailed
  | None => modify (set_files (insert (id f) f)) ;; ret f
  end.

(** [INSERT INTO "Document" ...]; [Document.fileId] references [File.id]. *)
Definition insertDocument (o : Op) (d : Document) : M unit :=
  call o ;;
  let* row := gets (fun w => files w !! doc_fileId d) in
  match row with
  | None => throw constraintFailed
  | Some _ => modify (set_documents (fun ds => ds ++ [d]))
  end.

(** [s3Client.send(new GetObjectCommand({ Bucket, Key }))] *)
Definition getObject (o : Op) (key : string) : M S3Object :=
  call o ;;
  let* obj := gets (fun w => bucket w !! key) in
  match obj with
  | None => throw noSuchKey
  | Some r => ret r
  end.

(** [s3Client.send(new DeleteObjectCommand({ Bucket, Key }))]; deleting a
    key that holds nothing is not an error for the store. *)
Definition deleteObject (o : Op) (key : string) : M unit :=
  call o ;; modify (set_bucket (delete key)).

End WithEnv.
End Prim.
Import Prim.

(** ** Upload service ([upload.service.ts]) *)

Module UploadService.
Section WithEnv.
Context (env : Env).
Local Open Scope eff_scope.

Definition allowedFileTypes : list string :=
  ["image/jpeg"; "image/png"; "image/gif"; "image/webp";
   "application/pdf"; "text/plain"; "text/markdown"; "text/csv"].

Definition maxFileSize : Z := 2 * 1024 * 1024.

(** [allowedFileTypes.includes(fileType)] *)
Definition includes (l : list string) (x : string) : bool :=
  existsb (String.eqb x) l.

(** The characters that [/[^a-zA-Z0-9.\-_]/g] leaves in place. *)
Definition keptChar (c : ascii) : bool :=
  let n := nat_of_ascii c in
  ((97 <=? n) && (n <=? 122) || (65 <=? n) && (n <=? 90) ||
   (48 <=? n) && (n <=? 57) || (n =? 46) || (n =? 45) || (n =? 95))%nat.

(** [fileName.replace(/[^a-zA-Z0-9.\-_]/g, '')] *)
Fixpoint sanitize (s : string) : string :=
  match s with
  | EmptyString => EmptyString
  | String c rest => if keptChar c then String c (sanitize rest) else sanitize rest
  end.

(** The access control for public files: only an administrator or a
    contributor gets a public file. *)
Definition finalIsPublic (isPublic : bool) (user : User) : bool :=
  if isPublic then
    if decide (u_role user = ADMIN \/ u_role user = CONTRIBUTOR) then true else false
  else false.

Definition generateSignedUrl (fileName fileType : string) (fileSize : Z)
    (isPublic : bool) (user : User) : M (string * string * string) :=
  if negb (includes allowedFileTypes fileType) then
    throw (ApiError 400
      "Invalid file type. Only JPEG, PNG, GIF, WEBP, PDF, and TEXT files are allowed.")
  else if (maxFileSize <? fileSize)%Z then
    throw (ApiError 400 "File size must be less than 2MB.")
  else if String.eqb (u_id user) EmptyString then
    throw (ApiError 400 "User ID is required for file upload.")
  else
    let sanitizedFileName := sanitize fileName in
    let fileKey :=
      "users/" +:+ u_id user +:+ "/" +:+ uuidv4 env +:+ "-" +:+ sanitizedFileName in
    let* file := fileCreate env OpCreateFile
                   (mkFile (newFileId env) fileKey fileName None fileType PENDING
                           (u_id user) (finalIsPublic isPublic user)) in
    call env OpPresignPut ;;
    ret (presignPut env fileKey, fileKey, id file).

End WithEnv.
End UploadService.

(** ** Ingestion worker ([ingestion.worker.ts]) *)

Module IngestionWorker.
Section WithEnv.
Context (env : Env).
Local Open Scope eff_scope.

Definition nl : string := String (ascii_of_nat 10) EmptyString.

(** A text of the worker is a JavaScript string; here it is held as the
    bytes of its UTF-8 encoding.  [codePoints] reads the characters back; a
    byte that starts no well-formed sequence (overlong forms and surrogates
    are not well formed) reads as U+FFFD. *)
Definition continuation (b : N) : bool := ((128 <=? b) && (b <? 192))%N.

Definition replacement : N := 65533.

Definition twoBytes (b0 b1 : N) : N := ((b0 - 192) * 64 + (b1 - 128))%N.

Definition threeBytes (b0 b1 b2 : N) : N :=
  ((b0 - 224) * 4096 + (b1 - 128) * 64 + (b2 - 128))%N.

Definition fourBytes (b0 b1 b2 b3 : N) : N :=
  ((b0 - 240) * 262144 + (b1 - 128) * 4096 + (b2 - 128) * 64 + (b3 - 128))%N.

Definition wellFormed2 (b0 b1 : N) : bool :=
  ((194 <=? b0) && (b0 <? 224) && continuation b1)%N.

Definition wellFormed3 (b0 b1 b2 : N) : bool :=
  ((224 <=? b0) && (b0 <? 240) && continuation b1 && continuation b2 &&
   (2048 <=? threeBytes b0 b1 b2) &&
   negb ((55296 <=? threeBytes b0 b1 b2) && (threeBytes b0 b1 b2 <=? 57343)))%N.

Definition wellFormed4 (b0 b1 b2 b3 : N) : bool :=
  ((240 <=? b0) && (b0 <? 248) && continuation b1 && continuation b2 &&
   continuation b3 && (65536 <=? fourBytes b0 b1 b2 b3) &&
   (fourBytes b0 b1 b2 b3 <=? 1114111))%N.

Fixpoint codePoints (s : string) : list N :=
  match s with
  | EmptyString => []
  | String c0 r0 =>
      let b0 := N_of_ascii c0 in
      if (b0 <? 128)%N then b0 :: codePoints r0
      else
        match r0 with
        | EmptyString => [replacement]
        | String c1 r1 =>
            let b1 := N_of_ascii c1 in
            if wellFormed2 b0 b1 then twoBytes b0 b1 :: codePoints r1
            else
              match r1 with
              | EmptyString => replacement :: codePoints r0
              | String c2 r2 =>
                  let b2 := N_of_ascii c2 in
                  if wellFormed3 b0 b1 b2 then
                    threeBytes b0 b1 b2 :: codePoints r2
                  else
                    match r2 with
                    | EmptyString => replacement :: codePoints r0
                    | String c3 r3 =>
                        let b3 := N_of_ascii c3 in
                        if wellFormed4 b0 b1 b2 b3 then
                          fourBytes b0 b1 b2 b3 :: codePoints r3
                        else replacement :: codePoints r0
                    end
              end
        end
  end.

(** What [String.prototype.trim] strips: the WhiteSpace and LineTerminator
    code points of ECMAScript, that is TAB, LF, VT, FF, CR, the space,
    U+00A0, U+1680, U+2000 to U+200A, U+2028, U+2029, U+202F, U+205F,
    U+3000 and U+FEFF. *)
Definition isWhiteSpace (c : N) : bool :=
  ((9 <=? c) && (c <=? 13) || (c =? 32) || (c =? 160) || (c =? 5760) ||
   (8192 <=? c) && (c <=? 8202) || (c =? 8232) || (c =? 8233) ||
   (c =? 8239) || (c =? 8287) || (c =? 12288) || (c =? 65279))%N.

(** [!text.trim()]: the text holds nothing but such characters. *)
Definition trimIsEmpty (s : string) : bool :=
  forallb isWhiteSpace (codePoints s).

(** [error.name === 'NoSuchKey' || error.$metadata?.httpStatusCode === 404] *)
Definition isMissingObject (error : Err) : bool :=
  String.eqb (err_name error) "NoSuchKey" ||
  match err_httpStatusCode error with Some c => (c =? 404)%Z | None => false end.

(** The [where] of the duplicate check. *)
Definition duplicateOf (userId fileHash fileId : string) (f : File) : bool :=
  String.eqb (Store.userId f) userId &&
  match Store.fileHash f with Some h => String.eqb h fileHash | None => false end &&
  bool_decide (status f = COMPLETED) &&
  negb (String.eqb (id f) fileId).

(** Step 3, parse text. *)
Definition parseText (mimeType : string) (byteArray : Bytes) : M string :=
  if String.eqb mimeType "application/pdf" then
    call env OpPdfProxy ;;
    call env OpPdfText ;;
    ret (match pdfText env byteArray with
         | Pages l => String.concat nl l
         | Merged t => t
         end)
  else if String.prefix "image/" mimeType then
    call env OpImageText ;;
    ret (describeImage env byteArray)
  else
    ret (utf8 env byteArray).

(** Step 5 and 6, [for (const chunk of chunks) { embed; INSERT }]; [i] is
    the position of the first chunk of [chunks] in the whole list. *)
Fixpoint embedAndSave (userId fileId originalName : string)
    (i : nat) (chunks : list Chunk) : M unit :=
  match chunks with
  | [] => ret tt
  | chunk :: rest =>
      call env (OpEmbedChunk i) ;;
      let embedding := embedText env (pageContent chunk) in
      insertDocument env (OpInsertChunk i)
        (mkDocument (pageContent chunk)
                    (("originalName", JStr originalName) :: metadata chunk)
                    userId fileId embedding) ;;
      embedAndSave userId fileId originalName (S i) rest
  end.

(** The body of the [try] block of [processJob]. *)
Definition processJob_try (fileId : string) : M unit :=
  let* fileRecord := findUnique env OpFindUnique fileId in
  match fileRecord with
  | None => throw (jsError ("File record not found: " +:+ fileId))
  | Some rec =>
      let fileKey := Store.fileKey rec in
      let userId := Store.userId rec in
      let mimeType := Store.mimeType rec in
      let originalName := Store.originalName rec in
      fileUpdate env OpMarkProcessing fileId (with_status PROCESSING) ;;
      let* s3Response :=
        tryCatch
          (let* r := getObject env OpGetObject fileKey in ret (Some r))
          (fun error =>
             if isMissingObject error then
               logger Warn ("File not found in S3 for fileId: " +:+ fileId +:+
                            ". Cleaning up reservation...") ;;
               fileDelete env OpDeleteReservation fileId ;;
               ret None
             else throw error) in
      match s3Response with
      | None => ret tt
      | Some response =>
          match Body response with
          | None => throw (jsError "Empty body from S3")
          | Some byteArray =>
              call env OpReadBody ;;
              let fileHash := sha256hex env byteArray in
              let* duplicate :=
                findFirst env OpFindDuplicate (duplicateOf userId fileHash fileId) in
              match duplicate with
              | Some _ =>
                  logger Warn ("Duplicate file detected for user " +:+ userId +:+
                               ". Hash: " +:+ fileHash +:+ ". Cleaning up S3...") ;;
                  deleteObject env OpDeleteObject fileKey ;;
                  logger Info ("Deleted duplicate file from S3: " +:+ fileKey) ;;
                  fileUpdate env OpMarkDuplicate fileId
                    (fun f => with_hash fileHash (with_status DUPLICATE f))
              | None =>
                  fileUpdate env OpStoreHash fileId (with_hash fileHash) ;;
                  let* text := parseText mimeType byteArray in
                  if trimIsEmpty text then
                    logger Warn ("No text extracted from file: " +:+ fileKey) ;;
                    fileUpdate env OpMarkEmpty fileId (with_status FAILED)
                  else
                    call env OpSplit ;;
                    let chunks := createDocuments env text in
                    logger Info ("Generated " +:+ pretty (length chunks) +:+
                                 " chunks for file: " +:+ fileKey) ;;
                    embedAndSave userId fileId originalName 0 chunks ;;
                    fileUpdate env OpMarkCompleted fileId (with_status COMPLETED) ;;
                    logger Info ("Successfully ingested file: " +:+ fileId)
              end
          end
      end
  end.

(** The [catch] block of [processJob]: mark the file failed, swallowing a
    failure of that update, and throw the error again. *)
Definition processJob_catch (jobId fileId : string) (error : Err) : M unit :=
  logger Error ("Error processing ingestion job " +:+ jobId +:+ ": " +:+
                errToString error) ;;
  tryCatch
    (fileUpdate env OpMarkFailed fileId (with_status FAILED))
    (fun e => logger Error ("Failed to update status to FAILED: " +:+ errToString e)) ;;
  throw error.

Definition processJob (jobId fileId : string) : M unit :=
  logger Info ("Starting ingestion job " +:+ jobId +:+ " for fileId: " +:+ fileId) ;;
  tryCatch (processJob_try fileId) (processJob_catch jobId fileId).

(** The world in which the [try] block starts. *)
Definition started (jobId fileId : string) (w : World) : World :=
  add_log Info ("Starting ingestion job " +:+ jobId +:+ " for fileId: " +:+ fileId) w.

End WithEnv.
End IngestionWorker.

(** ** Agent service ([agent.service.ts]) *)

Module AgentService.
Import AgentValidation.
Section WithEnv.
Context (env : Env).
Local Open Scope eff_scope.

(** A row of the result of the similarity query; the columns that come from
    the left-joined [File] are null when the join finds no file. *)
Record Row := mkRow {
  r_content : string;
  r_metadata : list (string * json);
  r_originalName : option string;
  r_fileKey : option string;
  r_isPublic : option bool;
  r_distance : Q }.

(** [FROM "Document" d LEFT JOIN "File" f ON d."fileId" = f.id] *)
Definition joined (w : World) : list (Document * option File) :=
  List.map (fun d => (d, files w !! doc_fileId d)) (documents w).

(** [WHERE (d."userId" = userId OR f."isPublic" = true)]; a null on the
    right of [OR] leaves the decision to the left. *)
Definition where_ (userId : string) (r : Document * option File) : bool :=
  String.eqb (doc_userId (fst r)) userId ||
  match snd r with Some f => isPublic f | None => false end.

(** [(d.embedding <=> vectorQuery::vector) as distance] *)
Definition distance (vectorQuery : Vec) (r : Document * option File) : Q :=
  cosineDistance env (doc_embedding (fst r)) vectorQuery.

(** [ORDER BY distance ASC], as an insertion sort that keeps rows of equal
    distance in table order. *)
Fixpoint insertBy {A} (key : A -> Q) (x : A) (l : list A) : list A :=
  match l with
  | [] => [x]
  | y :: rest =>
      if Qle_bool (key x) (key y) then x :: y :: rest
      else y :: insertBy key x rest
  end.

Definition orderBy {A} (key : A -> Q) (l : list A) : list A :=
  List.fold_right (insertBy key) [] l.

(** [a] may come before [b] in an ascending order on [key]. *)
Definition ascending {A} (key : A -> Q) (a b : A) : Prop := (key a <= key b)%Q.

(** The rows the query keeps, before the [SELECT] list is applied:
    [WHERE ... ORDER BY distance ASC LIMIT 5]. *)
Definition retrieved (userId : string) (vectorQuery : Vec) (w : World)
    : list (Document * option File) :=
  firstn 5 (orderBy (distance vectorQuery)
                    (List.filter (where_ userId) (joined w))).

(** [SELECT d.content, d.metadata, f."originalName", f."fileKey",
    f."isPublic", ... as distance] *)
Definition select (vectorQuery : Vec) (r : Document * option File) : Row :=
  mkRow (doc_content (fst r)) (doc_metadata (fst r))
        (originalName <$> snd r) (fileKey <$> snd r) (isPublic <$> snd r)
        (distance vectorQuery r).

(** [prisma.$queryRaw`SELECT ...`] *)
Definition queryRaw (userId : string) (vectorQuery : Vec) : M (list Row) :=
  call env OpQuery ;;
  gets (fun w => List.map (select vectorQuery) (retrieved userId vectorQuery w)).

(** JavaScript truthiness of a nullable string column. *)
Definition truthy (s : option string) : bool :=
  match s with
  | Some k => negb (String.eqb k EmptyString)
  | None => false
  end.

Definition orNull (s : option string) : string :=
  match s with Some k => k | None => "null" end.

(** One element of [docsMap]: the citation header and the content. *)
Definition packageDoc (i : nat) (doc : Row) : M string :=
  let* signedUrl :=
    if truthy (r_fileKey doc) then
      tryCatch
        (call env (OpPresignGet i) ;; ret (presignGet env (orNull (r_fileKey doc))))
        (fun e =>
           logger Error ("Failed to generate signed URL for " +:+
                         orNull (r_fileKey doc) +:+ ": " +:+ errToString e) ;;
           ret "unavailable")
    else ret "unavailable" in
  let visibilityLabel :=
    match r_isPublic doc with
    | Some true => "[Public Doc]"
    | _ => "[User's Private Doc]"
    end in
  ret ("[Source: " +:+ orNull (r_originalName doc) +:+ " | Link: " +:+ signedUrl +:+
       " | Visibility: " +:+ visibilityLabel +:+ "] " +:+ IngestionWorker.nl +:+
       "Content: " +:+ r_content doc).

Fixpoint packageDocs (i : nat) (docs : list Row) : M (list string) :=
  match docs with
  | [] => ret []
  | doc :: rest =>
      let* c := packageDoc i doc in
      let* cs := packageDocs (S i) rest in
      ret (c :: cs)
  end.

(** What [chat] hands to the streaming call, with the retrieval behind it. *)
Record ChatResult := mkChatResult {
  cr_searchQuery : string;
  cr_documents : list Row;
  cr_context : string;
  cr_system : string;
  cr_messages : list Message }.

(** Step 1, the contextual query rewriter. *)
Definition refineSearchQuery (messages : list Message) (lastMessage : Message)
    : M string :=
  if (1 <? length messages)%nat then
    tryCatch
      (call env OpRewrite ;;
       let text := rewriteQuery env messages in
       logger Info ("Rewrote query: " +:+ content lastMessage +:+ " -> " +:+ text) ;;
       ret text)
      (fun error =>
         logger Error ("Query rewriting failed: " +:+ errToString error) ;;
         ret (content lastMessage))
  else ret (content lastMessage).

(** Steps 2 to 6, from the search query on. *)
Definition answerFrom (messages : list Message) (userId searchQuery : string)
    : M ChatResult :=
  call env OpEmbedQuery ;;
  let embedding := embedText env searchQuery in
  let* documents := queryRaw userId embedding in
  let* contextArray := packageDocs 0 documents in
  let context := String.concat (IngestionWorker.nl +:+ IngestionWorker.nl) contextArray in
  let systemPrompt := systemPromptFor env context in
  call env OpStream ;;
  ret (mkChatResult searchQuery documents context systemPrompt messages).

Definition chat (messages : list Message) (userId : string) : M ChatResult :=
  match last messages with
  | None => throw (ApiError 400 "Messages content is required")
  | Some lastMessage =>
      if String.eqb (content lastMessage) EmptyString then
        throw (ApiError 400 "Messages content is required")
      else
        let* searchQuery := refineSearchQuery messages lastMessage in
        answerFrom messages userId searchQuery
  end.

(** The authorization predicate of retrieval for a query of [userId]: the
    chunk belongs to the user, or the file it comes from is public. *)
Definition authorized (userId : string) (w : World) (r : Document * option File)
    : Prop :=
  doc_userId (fst r) = userId \/
  exists f, files w !! doc_fileId (fst r) = Some f /\ snd r = Some f /\
            isPublic f = true.

End WithEnv.
End AgentService.

(** ** The chunker *)

Module Chunker.
Section Windows.
Context {A : Type}.
Variables (chunkSize chunkOverlap : nat).

(** Modelled from the spec: the text splitter behind [createDocuments] is
    the third-party [RecursiveCharacterTextSplitter], which the worker only
    configures with [chunkSize: 1000] and [chunkOverlap: 200].  The model is
    the deterministic fixed-size sliding window of the chunker contract:
    windows of the target length, each one after the first starting with the
    last [chunkOverlap] characters of its predecessor, until the window
    reaches the end of the text.  The preference for natural boundaries,
    which the contract leaves open, is not part of the model.  [fuel] bounds
    the number of windows. *)
Fixpoint windows (fuel : nat) (text : list A) : list (list A) :=
  match fuel with
  | O => []
  | S fuel' =>
      if (length text <=? chunkSize)%nat then [text]
      else firstn chunkSize text
             :: windows fuel' (skipn (chunkSize - chunkOverlap) text)
  end.

(** Modelled from the spec: [chunk(text)], the ordered sequence of chunk
    texts; the empty text has no chunk. *)
Definition chunk (text : list A) : list (list A) :=
  match text with
  | [] => []
  | _ => windows (length text) text
  end.

(** Modelled from the spec: the non-overlapping portion of the [i]-th
    chunk, the whole first chunk and every later chunk without the
    characters it repeats from its predecessor. *)
Definition fresh (chunks : list (list A)) : list (list A) :=
  match chunks with
  | [] => []
  | c :: rest => c :: List.map (skipn chunkOverlap) rest
  end.

End Windows.

(** Modelled from the spec: the chunker at the configuration of the worker,
    [chunkSize: 1000] and [chunkOverlap: 200]. *)
Definition chunkText {A} (text : list A) : list (list A) := chunk 1000 200 text.

Definition lastN {A} (n : nat) (l : list A) : list A := skipn (length l - n) l.

End Chunker.

(** ** A small installation to run the code on *)

Module Demo.

Definition boom : Err := mkErr "TimeoutError" "socket hang up" None.

(** Collaborators that answer every call, except at the sites of [bad]. *)
Definition failingAt (bad : list Op) : Op -> option Err :=
  fun o => if bool_decide (o ∈ bad) then Some boom else None.

Definition asChunks (text : string) : list Chunk :=
  List.map (fun c => mkChunk (string_of_list_ascii c) [])
           (Chunker.chunkText (list_ascii_of_string text)).

(** The digest is the content itself and the distance of a stored vector to
    any query is its first component, a distance computed beforehand. *)
Definition env (bad : list Op) : Env :=
  mkEnv (failingAt bad)
        string_of_list_byte
        (fun b => Merged (string_of_list_byte b))
        (fun _ => "a chart of the fourth quarter")
        string_of_list_byte
        asChunks
        (fun s => [inject_Z (Z.of_nat (String.length s))])
        (fun d _ => match d with x :: _ => x | [] => 1%Q end)
        (fun _ => "Who is the CEO of SpaceX?")
        (fun k => "https://store.example/get/" +:+ k)
        (fun k => "https://store.example/put/" +:+ k)
        (fun c => "REAL CONTEXT: " +:+ c)
        "4f1c" "file-9".

Definition budget : Bytes := list_byte_of_string "The total budget for Q4 is $50,000.".

Definition alice : User := mkUser "alice" USER.
Definition carol : User := mkUser "carol" CONTRIBUTOR.

Definition file1 : File :=
  mkFile "file-1" "users/alice/1-budget.txt" "budget.txt"
         (Some "The total budget for Q4 is $50,000.") "text/plain" COMPLETED "alice" false.

Definition file2 : File :=
  mkFile "file-2" "users/alice/2-budget-copy.txt" "budget-copy.txt"
         None "text/plain" PENDING "alice" false.

Definition file3 : File :=
  mkFile "file-3" "users/bob/3-notes.txt" "notes.txt" None "text/plain" COMPLETED "bob" false.

Definition file4 : File :=
  mkFile "file-4" "users/carol/4-handbook.txt" "handbook.txt" None "text/plain"
         COMPLETED "carol" true.

Definition file5 : File :=
  mkFile "file-5" "users/carol/5-memo.txt" "memo.txt" None "text/plain" PENDING "carol" false.

Definition memo : Bytes := list_byte_of_string "Lunch is at noon.".

Definition doc (content owner fileId : string) (d : Q) : Document :=
  mkDocument content [] owner fileId [d].

Definition near : Document := doc "The total budget for Q4 is $50,000." "alice" "file-1" (1 # 10).
Definition middle : Document := doc "Refunds are processed in 30 days." "carol" "file-4" (5 # 10).
Definition far : Document := doc "Travel is booked by the office." "alice" "file-1" (9 # 10).
Definition hidden : Document := doc "Notes of bob." "bob" "file-3" (1 # 100).

Definition world : World :=
  mkWorld {[ "file-1" := file1; "file-2" := file2; "file-3" := file3; "file-4" := file4;
             "file-5" := file5 ]}
          [far; hidden; near; middle]
          {[ "users/alice/1-budget.txt" := mkS3Object (Some budget);
             "users/alice/2-budget-copy.txt" := mkS3Object (Some budget);
             "users/carol/5-memo.txt" := mkS3Object (Some memo) ]}
          [] [].

(** The same installation with only the three chunks alice may see. *)
Definition world3 : World :=
  mkWorld (files world) [far; near; middle] (bucket world) [] [].

Definition conversation : list AgentValidation.Message :=
  [AgentValidation.mkMessage AgentValidation.RoleUser "Who is the CEO of Tesla?";
   AgentValidation.mkMessage AgentValidation.RoleAssistant "Elon Musk.";
   AgentValidation.mkMessage AgentValidation.RoleUser "And SpaceX?"].

Definition question : AgentValidation.Message :=
  AgentValidation.mkMessage AgentValidation.RoleUser "What is the budget?".

End Demo.

(** ** Relations between the world before and after a run *)

Module Frame.

(** Every run of [m] takes a world to one that [R] relates to it. *)
Definition preserves {A} (R : World -> World -> Prop) (m : M A) : Prop :=
  forall w out w', m w = (out, w') -> R w w'.

(** [f'] is the row [f] up to its status and its hash. *)
Definition sameIdentity (f f' : File) : Prop :=
  id f' = id f /\ fileKey f' = fileKey f /\ originalName f' = originalName f /\
  mimeType f' = mimeType f /\ userId f' = userId f /\ isPublic f' = isPublic f.

(** Every chunk belongs to a file of the table, and to the owner of that
    file. *)
Definition owned (w : World) : Prop :=
  Forall (fun d => exists f, files w !! doc_fileId d = Some f /\
                             userId f = doc_userId d)
         (documents w).

(** The tables are well formed: rows sit under their [id] and chunks belong
    to the owner of their file. *)
Definition wellFormed (w : World) : Prop := keyed w /\ owned w.

(** What the steps of a job keep, once the row [rec] has been read. *)
Definition jobInvariant (fileId : string) (rec : File) (w : World) : Prop :=
  wellFormed w /\ forall f, files w !! fileId = Some f -> userId f = userId rec.

(** The chunks of the other files. *)
Definition otherDocuments (fileId : string) (w : World) : list Document :=
  List.filter (fun d => negb (String.eqb (doc_fileId d) fileId)) (documents w).

(** What a job for [fileId], whose row held the key [key], may have done to
    the world: the other rows, the other objects and the chunks of the other
    files are as they were; the row of the file is gone or differs in
    status and hash only; no row and no object has appeared. *)
Definition jobFrame (fileId key : string) (w w' : World) : Prop :=
  (forall k, k <> fileId -> files w' !! k = files w !! k) /\
  (forall k, k <> key -> bucket w' !! k = bucket w !! k) /\
  (forall k, bucket w' !! k = bucket w !! k \/ bucket w' !! k = None) /\
  otherDocuments fileId w' = otherDocuments fileId w /\
  match files w !! fileId with
  | None => files w' !! fileId = None
  | Some f => files w' !! fileId = None \/
              exists f', files w' !! fileId = Some f' /\ sameIdentity f f'
  end.

(** The row that step 5 writes for a chunk. *)
Definition chunkRow (env : Env) (userId fileId originalName : string)
    (chunk : Chunk) : Document :=
  mkDocument (pageContent chunk)
             (("originalName", JStr originalName) :: metadata chunk)
             userId fileId (embedText env (pageContent chunk)).

End Frame.

(** ** The steps of the ingestion job, one by one *)

Module IngestionSteps.
Import IngestionWorker.
Section WithEnv.
Context (env : Env).
Local Open Scope eff_scope.

(** Steps 4 to 7 of the [try] block, for a text that is not blank. *)
Definition chunkAndSave (fileId : string) (rec : File) (text : string) : M unit :=
  call env OpSplit ;;
  let chunks := createDocuments env text in
  logger Info ("Generated " +:+ pretty (length chunks) +:+
               " chunks for file: " +:+ fileKey rec) ;;
  embedAndSave env (userId rec) fileId (originalName rec) 0 chunks ;;
  fileUpdate env OpMarkCompleted fileId (with_status COMPLETED) ;;
  logger Info ("Successfully ingested file: " +:+ fileId).

(** The [try] block from the hash on, for the bytes of the object. *)
Definition afterDownload (fileId : string) (rec : File) (byteArray : Bytes)
    : M unit :=
  let fileHash := sha256hex env byteArray in
  let* duplicate :=
    findFirst env OpFindDuplicate (duplicateOf (userId rec) fileHash fileId) in
  match duplicate with
  | Some _ =>
      logger Warn ("Duplicate file detected for user " +:+ userId rec +:+
                   ". Hash: " +:+ fileHash +:+ ". Cleaning up S3...") ;;
      deleteObject env OpDeleteObject (fileKey rec) ;;
      logger Info ("Deleted duplicate file from S3: " +:+ fileKey rec) ;;
      fileUpdate env OpMarkDuplicate fileId
        (fun f => with_hash fileHash (with_status DUPLICATE f))
  | None =>
      fileUpdate env OpStoreHash fileId (with_hash fileHash) ;;
      let* text := parseText env (mimeType rec) byteArray in
      if trimIsEmpty text then
        logger Warn ("No text extracted from file: " +:+ fileKey rec) ;;
        fileUpdate env OpMarkEmpty fileId (with_status FAILED)
      else chunkAndSave fileId rec text
  end.

(** The text that step 3 extracts when its calls go through. *)
Definition extractedText (mimeType : string) (byteArray : Bytes) : string :=
  if String.eqb mimeType "application/pdf" then
    match pdfText env byteArray with
    | Pages l => String.concat nl l
    | Merged t => t
    end
  else if String.prefix "image/" mimeType then describeImage env byteArray
  else utf8 env byteArray.

(** The world in which the bytes of the object have been read. *)
Definition downloaded (fileId : string) (rec : File) (w : World) : World :=
  add_call OpReadBody
    (add_call OpGetObject
       (set_files (insert fileId (with_status PROCESSING rec))
          (add_call OpMarkProcessing (add_call OpFindUnique w)))).

(** No other ingested file of the owner has the hash [fileHash]. *)
Definition noDuplicate (fileId : string) (rec : File) (fileHash : string)
    (w : World) : Prop :=
  map_Forall (fun _ f => duplicateOf (userId rec) fileHash fileId f = false)
             (files w).

(** No collaborator fails. *)
Definition allAnswer : Prop := forall o, fault env o = None.

End WithEnv.
End IngestionSteps.

(** ** Upload confirmation and the roles of the routes *)

Module UploadConfirm.

(** A job of the ingestion queue: its name and its [fileId]. *)
Record Job := mkJob { job_name : string; job_fileId : string }.

(** The world together with the ingestion queue. *)
Record Sys := mkSys { sys_world : World; sys_queue : list Job }.

(** [ingestionService.addIngestionJob(data)], that is
    [queue.add('ingest', data)]; [reject] is the error of the queue, if it
    has one for this call. *)
Definition addIngestionJob (reject : option Err) (fileId : string) (s : Sys)
    : Outcome unit * Sys :=
  match reject with
  | Some e => (Throw e, s)
  | None => (Ok tt, mkSys (sys_world s) (sys_queue s ++ [mkJob "ingest" fileId]))
  end.

(** [confirmUpload(data, user)]; [rejectFind] is the error of the lookup, if
    it has one for this call. *)
Definition confirmUpload (rejectFind rejectAdd : option Err) (fileId : string)
    (user : User) (s : Sys) : Outcome (string * string) * Sys :=
  match rejectFind with
  | Some e => (Throw e, s)
  | None =>
      match files (sys_world s) !! fileId with
      | None => (Throw (ApiError 404 "File not found"), s)
      | Some file =>
          if negb (String.eqb (userId file) (u_id user)) then
            (Throw (ApiError 403 "Unauthorized access to file"), s)
          else
            match addIngestionJob rejectAdd (id file) s with
            | (Ok _, s') => (Ok ("Ingestion started", id file), s')
            | (Throw e, s') => (Throw e, s')
            end
      end
  end.

(** [authorize(requiredRoles)], on the user that [auth] has put on the
    request, if any: the error handed to [next], or none. *)
Definition authorize (requiredRoles : list Role) (user : option User) : option Err :=
  match user with
  | None => Some (ApiError 401 "User not authenticated")
  | Some u =>
      if bool_decide (u_role u ∈ requiredRoles) then None
      else Some (ApiError 403 "User is not authorized to access this route")
  end.

(** [router.use(auth, authorize([Role.USER, Role.ADMIN]))] of the upload
    routes and of the agent routes. *)
Definition uploadRoles : list Role := [USER; ADMIN].
Definition agentRoles : list Role := [USER; ADMIN].

End UploadConfirm.

(** ** File cleanup worker ([fileCleanup.worker.ts]) *)

Module FileCleanup.
Import AgentService.
Local Open Scope eff_scope.

(** The calls of the cleanup job that leave the process, by call site and,
    inside the loop, by file. *)
Inductive CleanupOp :=
  | OpFindMany
  | OpCleanObject (fileId : string)
  | OpCleanRow (fileId : string).

(** What the job finds around it: the calls that fail, the clock
    ([Date.now()], in milliseconds) and the column [createdAt] of the [File]
    table, by row identifier. *)
Record CleanupEnv := mkCleanupEnv {
  cfault : CleanupOp -> option Err;
  now : Z;
  createdAt : string -> Z }.

Section WithEnv.
Context (cenv : CleanupEnv).

(** A call that rejects when the environment says so. *)
Definition attempt (o : CleanupOp) : M unit :=
  fun w => match cfault cenv o with
           | Some e => (Throw e, w)
           | None => (Ok tt, w)
           end.

Definition dayMs : Z := 24 * 60 * 60 * 1000.

(** The [where] of step 1: [PENDING] or [FAILED], and created more than 24
    hours ago. *)
Definition abandoned (f : File) : bool :=
  (bool_decide (status f = PENDING) || bool_decide (status f = FAILED)) &&
  (createdAt cenv (id f) <? now cenv - dayMs)%Z.

(** [prisma.file.findMany({ where })] *)
Definition findMany : M (list File) :=
  attempt OpFindMany ;;
  gets (fun w => List.filter abandoned (snd <$> map_to_list (files w))).

(** The inner [try]: the object is deleted on a best effort. *)
Definition cleanObject (file : File) : M unit :=
  if negb (String.eqb (fileKey file) EmptyString) then
    tryCatch
      (attempt (OpCleanObject (id file)) ;;
       modify (set_bucket (delete (fileKey file))))
      (fun s3Error =>
         logger Warn ("Failed to delete S3 object for file " +:+ id file +:+
                      ": " +:+ errToString s3Error))
  else ret tt.

(** [prisma.file.delete({ where: { id } })], with its cascade. *)
Definition deleteRow (fileId : string) : M unit :=
  attempt (OpCleanRow fileId) ;;
  let* row := gets (fun w => files w !! fileId) in
  match row with
  | None => throw recordNotFound
  | Some _ =>
      modify (fun w =>
        set_documents
          (List.filter (fun d => negb (String.eqb (doc_fileId d) fileId)))
          (set_files (delete fileId) w))
  end.

(** Step 2, [for (const file of abandonedFiles)]. *)
Fixpoint cleanEach (abandonedFiles : list File) (deletedCount : nat) : M nat :=
  match abandonedFiles with
  | [] => ret deletedCount
  | file :: rest =>
      let* count :=
        tryCatch
          (cleanObject file ;;
           deleteRow (id file) ;;
           ret (S deletedCount))
          (fun dbError =>
             logger Error ("Failed to delete DB record for file " +:+ id file +:+
                           ": " +:+ errToString dbError) ;;
             ret deletedCount) in
      cleanEach rest count
  end.

(** [processFileCleanupJob(job)]; the result is [cleanedCount], or nothing
    for a job of another name. *)
Definition processFileCleanupJob (jobId jobName : string) : M (option nat) :=
  logger Info ("Processing job " +:+ jobId +:+ " of type " +:+ jobName) ;;
  if String.eqb jobName "cleanAbandonedFiles" then
    tryCatch
      (let* abandonedFiles := findMany in
       if (length abandonedFiles =? 0)%nat then
         logger Info "No abandoned files found." ;;
         ret (Some 0%nat)
       else
         logger Info ("Found " +:+ pretty (length abandonedFiles) +:+
                      " abandoned files. Starting cleanup...") ;;
         let* deletedCount := cleanEach abandonedFiles 0 in
         logger Info ("Successfully cleaned up " +:+ pretty deletedCount +:+
                      " abandoned files.") ;;
         ret (Some deletedCount))
      (fun error =>
         logger Error ("Error in file cleanup worker: " +:+ errToString error) ;;
         throw error)
  else ret None.

(** What a cleanup that started in [w0] may have made of the world: a row
    is as it was or, if it was abandoned, gone; an object is as it was or,
    if it was the object of an abandoned row, gone; no chunk has appeared
    and the chunks of the rows that are still there are still there. *)
Definition cleaned (w0 w : World) : Prop :=
  (forall k, files w !! k = files w0 !! k \/
             (files w !! k = None /\
              exists f, files w0 !! k = Some f /\ abandoned f = true)) /\
  (forall k, bucket w !! k = bucket w0 !! k \/
             (bucket w !! k = None /\
              exists i f, files w0 !! i = Some f /\ abandoned f = true /\
                          fileKey f = k)) /\
  (forall d, In d (documents w) -> In d (documents w0)) /\
  (forall d, In d (documents w0) -> files w !! doc_fileId d <> None ->
             In d (documents w)).

End WithEnv.

(** [w'] has lost rows, objects or chunks of [w], at most. *)
Definition shrinks (w w' : World) : Prop :=
  (forall k, files w' !! k = files w !! k \/ files w' !! k = None) /\
  (forall k, bucket w' !! k = bucket w !! k \/ bucket w' !! k = None) /\
  (forall d, In d (documents w') -> In d (documents w)).

End FileCleanup.

(** ** File service ([file.service.ts]) *)

Module FileService.
Import AgentService.

(** The columns of the [User] row that the listing selects. *)
Record Account := mkAccount { acc_email : string; acc_role : Role }.

(** One entry of the listing. *)
Record Listed := mkListed {
  l_id : string;
  l_originalName : string;
  l_mimeType : string;
  l_status : FileStatus;
  l_isPublic : bool;
  l_createdAt : Z;
  l_fileKey : string;
  l_user : Account }.

(** What the listing finds around it: the error of the query, if it has
    one for this call, the column [createdAt] of the [File] table by row
    identifier, and the [User] row that a [userId] refers to. *)
Record FileEnv := mkFileEnv {
  listFault : option Err;
  fileCreatedAt : string -> Z;
  account : string -> Account }.

Section WithEnv.
Context (fenv : FileEnv).

(** The [where] that the filter selects: ['mine'], ['public'], or anything
    else for the files of the user and the public ones. *)
Definition whereOf (user : User) (filter : string) (f : File) : bool :=
  if String.eqb filter "mine" then String.eqb (userId f) (u_id user)
  else if String.eqb filter "public" then isPublic f
  else String.eqb (userId f) (u_id user) || isPublic f.

(** The rows of [findMany({ where, orderBy: { createdAt: 'desc' } })]. *)
Definition selected (user : User) (filter : string) (w : World) : list File :=
  orderBy (fun f => inject_Z (- fileCreatedAt fenv (id f)))
          (List.filter (whereOf user filter) (snd <$> map_to_list (files w))).

(** The [select] of the query, with the join on the owner. *)
Definition entry (f : File) : Listed :=
  mkListed (id f) (originalName f) (mimeType f) (status f) (isPublic f)
           (fileCreatedAt fenv (id f)) (fileKey f) (account fenv (userId f)).

(** The masking of the addresses of administrators. *)
Definition mask (e : Listed) : Listed :=
  if bool_decide (acc_role (l_user e) = ADMIN) then
    mkListed (l_id e) (l_originalName e) (l_mimeType e) (l_status e)
             (l_isPublic e) (l_createdAt e) (l_fileKey e)
             (mkAccount "Admin" (acc_role (l_user e)))
  else e.

(** [listFiles(user, filter)] *)
Definition listFiles (user : User) (filter : string) : M (list Listed) :=
  fun w => match listFault fenv with
           | Some e => (Throw e, w)
           | None => (Ok (List.map (fun f => mask (entry f))
                                   (selected user filter w)), w)
           end.

End WithEnv.
End FileService.

(** ** More of the small installation *)

Module Demo2.

Definition file6 : File :=
  mkFile "file-6" "users/alice/6-blank.txt" "blank.txt" None "text/plain" PENDING
         "alice" false.

(** A byte order mark, a no-break space, a space and a line feed. *)
Definition blank : Bytes :=
  [Byte.xef; Byte.xbb; Byte.xbf; Byte.xc2; Byte.xa0; Byte.x20; Byte.x0a].

Definition file7 : File :=
  mkFile "file-7" "users/alice/7-long.txt" "long.txt" None "text/plain" PENDING
         "alice" false.

(** 1800 times the letter x. *)
Definition long : Bytes := repeat Byte.x78 1800.

Definition world : World :=
  mkWorld (<["file-6" := file6]> (<["file-7" := file7]> (files Demo.world)))
          (documents Demo.world)
          (<["users/alice/6-blank.txt" := mkS3Object (Some blank)]>
             (<["users/alice/7-long.txt" := mkS3Object (Some long)]>
                (bucket Demo.world)))
          [] [].

(** A cleanup two days after the reservation of "file-2"; the other rows
    are an hour old. *)
Definition cleanup (bad : list FileCleanup.CleanupOp) : FileCleanup.CleanupEnv :=
  FileCleanup.mkCleanupEnv
    (fun o => if existsb (fun b => match o, b with
                                   | FileCleanup.OpFindMany, FileCleanup.OpFindMany => true
                                   | FileCleanup.OpCleanObject i, FileCleanup.OpCleanObject j
                                   | FileCleanup.OpCleanRow i, FileCleanup.OpCleanRow j =>
                                       String.eqb i j
                                   | _, _ => false
                                   end) bad
              then Some Demo.boom else None)
    172800000
    (fun i => if String.eqb i "file-2" then 0 else 169200000)%Z.

(** A second upload of the memo by carol. *)
Definition file8 : File :=
  mkFile "file-8" "users/carol/8-memo-copy.txt" "memo-copy.txt" None "text/plain"
         PENDING "carol" false.

Definition twins : World :=
  mkWorld (<["file-8" := file8]> (files Demo.world))
          (documents Demo.world)
          (<["users/carol/8-memo-copy.txt" := mkS3Object (Some Demo.memo)]>
             (bucket Demo.world))
          [] [].

End Demo2.

(** * Properties *)

(** ** Chat body validation *)

Section AgentValidationFacts.
Import AgentValidation.

Lemma roleEnum_Some (j : json) (r : MsgRole) :
  roleEnum j = Some r ->
  exists s, j = JStr s /\ In s ["user"; "assistant"; "system"; "data"].
Proof.
  destruct j as [| | |s| |]; simpl; try discriminate.
  intros H. exists s. split; [reflexivity|].
  destruct (String.eqb_spec s "user") as [->|_]; [simpl; tauto|].
  destruct (String.eqb_spec s "assistant") as [->|_]; [simpl; tauto|].
  destruct (String.eqb_spec s "system") as [->|_]; [simpl; tauto|].
  destruct (String.eqb_spec s "data") as [->|_]; [simpl; tauto|].
  discriminate.
Qed.

Lemma messageSchema_shape (j : json) (m : Message) :
  messageSchema j = Some m <-> message_shape j m.
Proof.
  split.
  - destruct j as [| | | | |fs]; simpl; try discriminate.
    destruct (field "role" fs) as [r|] eqn:Hr; [|discriminate].
    destruct (field "content" fs) as [c|] eqn:Hc; [|discriminate].
    destruct (roleEnum r) as [r'|] eqn:Hr'; [|discriminate].
    destruct (zString c) as [c'|] eqn:Hc'; [|discriminate].
    intros [= <-].
    destruct (roleEnum_Some _ _ Hr') as (s & -> & Hin).
    destruct c; simpl in Hc'; try discriminate. injection Hc' as ->.
    exists fs, s, c'. repeat split; assumption.
  - intros (fs & r & c & -> & Hr & Hc & _ & Hrole & Hcont).
    unfold messageSchema. rewrite Hr, Hc, Hrole. simpl.
    destruct m as [mr mc]; simpl in *. now subst.
Qed.

Lemma zArrayMessages_shape (l : list json) (ms : list Message) :
  zArrayMessages l = Some ms <-> Forall2 message_shape l ms.
Proof.
  revert ms. induction l as [|j l IH]; intros ms; simpl.
  - split.
    + intros [= <-]. constructor.
    + intros H. inversion H. reflexivity.
  - split.
    + destruct (messageSchema j) as [m|] eqn:Hm; [|discriminate].
      destruct (zArrayMessages l) as [ms'|] eqn:Hms; [|discriminate].
      intros [= <-]. constructor.
      * now apply messageSchema_shape.
      * now apply IH.
    + intros H. inversion H as [|? m ? ms' Hjm Hrest]; subst.
      apply messageSchema_shape in Hjm. apply IH in Hrest.
      now rewrite Hjm, Hrest.
Qed.

(** C9, as the schema has it: a body passes [chatBodySchema] exactly when it
    is an object whose [messages] is an array of at least one element, each
    an object with a [role] among "user", "assistant", "system" and "data"
    and a string [content]; nothing is asked of the last element. *)
Theorem chatBodySchema_accepts_iff (body : json) (ms : list Message) :
  chatBodySchema body = Some ms <->
  exists fs l,
    body = JObj fs /\ field "messages" fs = Some (JArr l) /\
    l <> [] /\ Forall2 message_shape l ms.
Proof.
  split.
  - destruct body as [| | | | |fs]; simpl; try discriminate.
    destruct (field "messages" fs) as [[| | | |l|]|] eqn:Hf; try discriminate.
    destruct (zArrayMessages l) as [ms'|] eqn:Hms; [|discriminate].
    destruct ms' as [|m ms']; simpl; [discriminate|].
    intros [= <-]. exists fs, l. repeat split; try assumption.
    + intros ->. simpl in Hms. discriminate.
    + now apply zArrayMessages_shape.
  - intros (fs & l & -> & Hf & Hne & Hall).
    simpl. rewrite Hf.
    apply zArrayMessages_shape in Hall. rewrite Hall.
    destruct ms as [|m ms]; [|reflexivity].
    destruct l; [congruence|]. simpl in Hall.
    destruct (messageSchema j); [|discriminate].
    destruct (zArrayMessages l); discriminate.
Qed.

(** C9 as claimed fails: the schema lets through a conversation that opens
    with a "system" message and ends with an "assistant" message. *)
Lemma chatBodySchema_not_restricted_to_user_last :
  let body :=
    JObj [("messages",
           JArr [JObj [("role", JStr "system"); ("content", JStr "be brief")];
                 JObj [("role", JStr "assistant"); ("content", JStr "ok")]])] in
  let ms := [mkMessage RoleSystem "be brief"; mkMessage RoleAssistant "ok"] in
  chatBodySchema body = Some ms /\ ~ well_shaped ms.
Proof.
  split; [reflexivity|].
  intros (_ & _ & m & Hlast & Hrole).
  simpl in Hlast. injection Hlast as <-. discriminate.
Qed.

End AgentValidationFacts.

(** ** Upload service *)

Section UploadServiceFacts.
Import UploadService.
Context (env : Env).

Lemma finalIsPublic_true (isPublic : bool) (user : User) :
  finalIsPublic isPublic user = true <->
  isPublic = true /\ (u_role user = ADMIN \/ u_role user = CONTRIBUTOR).
Proof.
  unfold finalIsPublic.
  destruct isPublic; [destruct (decide _) as [H|H]|]; split;
    intros; try tauto; try discriminate; intuition discriminate.
Qed.

(** C10: whatever [generateSignedUrl] is called with, it either creates no
    row, or creates exactly one reservation row, whose [isPublic] is true
    only if the request asked for a public file and the user is an
    administrator or a contributor; and a call that returns has created that
    row under the identifier it returns. *)
Theorem generateSignedUrl_isPublic (fileName fileType : string) (fileSize : Z)
    (isPublic : bool) (user : User) (w : World) :
  let '(out, w') := generateSignedUrl env fileName fileType fileSize isPublic user w in
  (files w' = files w \/
   exists f,
     files w !! newFileId env = None /\
     files w' = <[newFileId env := f]> (files w) /\
     Store.userId f = u_id user /\ status f = PENDING /\
     (Store.isPublic f = true <->
      isPublic = true /\ (u_role user = ADMIN \/ u_role user = CONTRIBUTOR))) /\
  (forall signedUrl fileKey fileId,
     out = Ok (signedUrl, fileKey, fileId) ->
     fileId = newFileId env /\
     exists f, files w' !! fileId = Some f /\
       Store.fileKey f = fileKey /\
       Store.isPublic f =
         (isPublic && bool_decide (u_role user = ADMIN \/ u_role user = CONTRIBUTOR))).
Proof.
  unfold generateSignedUrl.
  destruct (negb (includes allowedFileTypes fileType)).
  { simpl. split; [now left|discriminate]. }
  destruct (maxFileSize <? fileSize)%Z.
  { simpl. split; [now left|discriminate]. }
  destruct (String.eqb (u_id user) EmptyString).
  { simpl. split; [now left|discriminate]. }
  unfold bind, fileCreate, call, gets, throw, modify, ret, bind; simpl.
  destruct (fault env OpCreateFile) as [e|]; simpl.
  { split; [now left|discriminate]. }
  destruct (files w !! newFileId env) as [f0|] eqn:Hrow; simpl.
  { split; [now left|discriminate]. }
  assert (Hpub : finalIsPublic isPublic user =
                 isPublic && bool_decide (u_role user = ADMIN \/ u_role user = CONTRIBUTOR)).
  { unfold finalIsPublic. destruct isPublic; [|reflexivity]. simpl.
    destruct (decide _) as [H|H].
    - now rewrite bool_decide_eq_true_2.
    - now rewrite bool_decide_eq_false_2. }
  destruct (fault env OpPresignPut) as [e|]; simpl.
  - split; [|discriminate]. right. eexists. split; [reflexivity|].
    split; [reflexivity|]. simpl.
    split; [reflexivity|split; [reflexivity|apply finalIsPublic_true]].
  - split.
    + right. eexists. split; [reflexivity|].
      split; [reflexivity|]. simpl.
      split; [reflexivity|split; [reflexivity|apply finalIsPublic_true]].
    + intros ? ? ? [= <- <- <-]. split; [reflexivity|].
      eexists. split; [apply lookup_insert_eq|]. simpl. split; [reflexivity|exact Hpub].
Qed.

End UploadServiceFacts.

(** A plain user who asks for a public file gets a private reservation; a
    contributor gets the public one.  The key keeps only the safe
    characters of the file name. *)
Example generateSignedUrl_demo :
  let run user :=
    UploadService.generateSignedUrl (Demo.env []) "Q4 budget (final).pdf"
                                    "application/pdf" 52000 true user Demo.world in
  fst (run Demo.alice)
  = Ok ("https://store.example/put/users/alice/4f1c-Q4budgetfinal.pdf",
        "users/alice/4f1c-Q4budgetfinal.pdf", "file-9") /\
  (isPublic <$> files (snd (run Demo.alice)) !! "file-9") = Some false /\
  (isPublic <$> files (snd (run Demo.carol)) !! "file-9") = Some true.
Proof. repeat split; vm_compute; reflexivity. Qed.

(** ** Retrieval *)

Section OrderByFacts.
Context {A : Type} (key : A -> Q).

Abbreviation ascending := (AgentService.ascending key).

Lemma insertBy_Permutation (x : A) (l : list A) :
  Permutation (AgentService.insertBy key x l) (x :: l).
Proof.
  induction l as [|y l IH]; simpl; [reflexivity|].
  destruct (Qle_bool (key x) (key y)); [reflexivity|].
  rewrite IH. apply perm_swap.
Qed.

Lemma orderBy_Permutation (l : list A) :
  Permutation (AgentService.orderBy key l) l.
Proof.
  induction l as [|x l IH]; simpl; [reflexivity|].
  unfold AgentService.orderBy in *. simpl.
  rewrite insertBy_Permutation. now constructor.
Qed.

Lemma insertBy_sorted (x : A) (l : list A) :
  StronglySorted ascending l ->
  StronglySorted ascending (AgentService.insertBy key x l).
Proof.
  induction 1 as [|y l Hs IH Hall]; simpl.
  - repeat constructor.
  - destruct (Qle_bool (key x) (key y)) eqn:Hxy.
    + apply Qle_bool_iff in Hxy. constructor.
      * now constructor.
      * constructor; [exact Hxy|].
        eapply List.Forall_impl; [|exact Hall].
        intros z Hz. unfold AgentService.ascending in *.
        now apply Qle_trans with (key y).
    + assert (Hyx : (key y <= key x)%Q).
      { apply Qlt_le_weak, Qnot_le_lt. intros H.
        apply Qle_bool_iff in H. congruence. }
      constructor; [exact IH|].
      eapply Permutation_Forall; [symmetry; apply insertBy_Permutation|].
      now constructor.
Qed.

Lemma orderBy_sorted (l : list A) :
  StronglySorted ascending (AgentService.orderBy key l).
Proof.
  induction l as [|x l IH]; [constructor|].
  unfold AgentService.orderBy in *. simpl. now apply insertBy_sorted.
Qed.

Lemma firstn_sorted (R : A -> A -> Prop) (n : nat) (l : list A) :
  StronglySorted R l -> StronglySorted R (firstn n l).
Proof.
  intros Hs. revert n. induction Hs as [|x l Hs IH Hall]; intros [|n]; simpl;
    try constructor.
  - apply IH.
  - now apply Forall_take.
Qed.

(** An ascending arrangement of rows whose keys are strictly increasing in
    some order is that order. *)
Lemma ascending_arrangement_unique (l l' : list A) :
  Permutation l l' ->
  StronglySorted ascending l ->
  StronglySorted (fun a b => (key a < key b)%Q) l' ->
  l = l'.
Proof.
  intros Hp Hl Hl'. revert l Hp Hl.
  induction Hl' as [|x t Ht IH Hx]; intros l Hp Hl.
  - symmetry in Hp. now apply Permutation_nil in Hp.
  - destruct l as [|h l0].
    { apply Permutation_nil in Hp. discriminate. }
    assert (Hh : In h (x :: t)).
    { eapply Permutation_in; [exact Hp|now left]. }
    assert (Hxl : In x (h :: l0)).
    { eapply Permutation_in; [symmetry; exact Hp|now left]. }
    inversion Hl as [|? ? Hl0 Hh0]; subst.
    rewrite List.Forall_forall in Hx, Hh0.
    assert (h = x) as ->.
    { destruct Hh as [Hh|Hh]; [now symmetry|].
      destruct Hxl as [Hxl|Hxl]; [exact Hxl|].
      exfalso. specialize (Hx _ Hh). specialize (Hh0 _ Hxl).
      unfold AgentService.ascending in Hh0. apply Qle_not_lt in Hh0. contradiction. }
    f_equal. apply IH; [|exact Hl0].
    eapply Permutation_cons_inv. exact Hp.
Qed.

End OrderByFacts.

Ltac run :=
  unfold bind, ret, throw, tryCatch, gets, modify, logger, call; simpl.

Section AgentServiceFacts.
Import AgentValidation AgentService.
Context (env : Env).

Lemma sameTables_refl (w : World) : sameTables w w.
Proof. now repeat split. Qed.

Lemma sameTables_trans (w1 w2 w3 : World) :
  sameTables w1 w2 -> sameTables w2 w3 -> sameTables w1 w3.
Proof. intros (?&?&?) (?&?&?). repeat split; congruence. Qed.

Lemma retrieved_sameTables (userId : string) (q : Vec) (w w' : World) :
  sameTables w w' -> retrieved env userId q w' = retrieved env userId q w.
Proof.
  intros (Hf & Hd & _). unfold retrieved, joined. now rewrite Hf, Hd.
Qed.

Lemma retrieved_from_joined (userId : string) (q : Vec) (w : World)
    (r : Document * option File) :
  In r (retrieved env userId q w) ->
  In r (joined w) /\ where_ userId r = true.
Proof.
  unfold retrieved. intros H.
  assert (H1 : In r (orderBy (distance env q) (List.filter (where_ userId) (joined w)))).
  { rewrite <- (firstn_skipn 5). apply in_or_app. now left. }
  eapply Permutation_in in H1; [|apply orderBy_Permutation].
  now apply filter_In in H1.
Qed.

Lemma retrieved_authorized (userId : string) (q : Vec) (w : World) :
  Forall (authorized userId w) (retrieved env userId q w).
Proof.
  apply List.Forall_forall. intros r Hr.
  apply retrieved_from_joined in Hr as [Hj Hw].
  unfold joined in Hj. apply in_map_iff in Hj as (d & <- & _).
  unfold where_ in Hw. simpl in Hw. unfold authorized. simpl.
  apply orb_true_iff in Hw as [Hw|Hw].
  - left. now apply String.eqb_eq.
  - right. destruct (files w !! doc_fileId d) as [f|]; [|discriminate].
    now exists f.
Qed.

Lemma refineSearchQuery_run (messages : list Message) (m : Message) (w : World) :
  exists q w1,
    refineSearchQuery env messages m w = (Ok q, w1) /\ sameTables w w1 /\
    ((q = content m /\
      (callsSince w w1 [] \/
       (1 < length messages)%nat /\ callsSince w w1 [OpRewrite] /\
       is_Some (fault env OpRewrite))) \/
     ((1 < length messages)%nat /\ fault env OpRewrite = None /\
      q = rewriteQuery env messages)).
Proof.
  unfold refineSearchQuery.
  destruct (1 <? length messages)%nat eqn:Hlen.
  - apply Nat.ltb_lt in Hlen. run.
    destruct (fault env OpRewrite) as [e|] eqn:He; simpl.
    + eexists _, _. split; [reflexivity|]. split; [now repeat split|].
      left. split; [reflexivity|]. right. repeat split; eauto.
    + eexists _, _. split; [reflexivity|]. split; [now repeat split|].
      right. now repeat split.
  - run. eexists _, _. split; [reflexivity|]. split; [now repeat split|].
    left. split; [reflexivity|]. left. unfold callsSince. now rewrite app_nil_r.
Qed.

Lemma packageDocs_run (docs : list Row) (i : nat) (w : World) :
  exists ctx w1 ops,
    packageDocs env i docs w = (Ok ctx, w1) /\ sameTables w w1 /\
    callsSince w w1 ops /\ ~ In OpRewrite ops.
Proof.
  revert i w. induction docs as [|doc docs IH]; intros i w; simpl.
  - exists [], w, []. repeat split; auto.
    unfold callsSince. now rewrite app_nil_r.
  - unfold packageDoc.
    assert (Hone : exists url w0 ops0,
      (if truthy (r_fileKey doc)
       then tryCatch
              (bind (call env (OpPresignGet i))
                    (fun _ => ret (presignGet env (orNull (r_fileKey doc)))))
              (fun e => bind (logger Error ("Failed to generate signed URL for " +:+
                         orNull (r_fileKey doc) +:+ ": " +:+ errToString e))
                             (fun _ => ret "unavailable"))
       else ret "unavailable") w = (Ok url, w0) /\ sameTables w w0 /\
      callsSince w w0 ops0 /\ ~ In OpRewrite ops0).
    { destruct (truthy (r_fileKey doc)).
      - run. destruct (fault env (OpPresignGet i)); simpl;
          eexists _, _, [OpPresignGet i]; (split; [reflexivity|]);
          (split; [now repeat split|]); (split; [reflexivity|]);
          simpl; intros [?|[]]; discriminate.
      - run. eexists _, w, []. split; [reflexivity|].
        split; [now repeat split|]. split; [|tauto].
        unfold callsSince. now rewrite app_nil_r. }
    destruct Hone as (url & w0 & ops0 & Hrun & Hsame & Hcalls & Hno).
    destruct (IH (S i) w0) as (ctx & w1 & ops1 & Hrun1 & Hsame1 & Hcalls1 & Hno1).
    unfold bind at 1. unfold bind at 1. rewrite Hrun. unfold ret at 1.
    unfold bind at 1. rewrite Hrun1. unfold ret.
    eexists _, w1, (ops0 ++ ops1). split; [reflexivity|].
    split; [eapply sameTables_trans; eassumption|].
    split.
    + unfold callsSince in *. rewrite Hcalls1, Hcalls. now rewrite app_assoc.
    + intros H. apply in_app_or in H. tauto.
Qed.


Lemma answerFrom_run (messages : list Message) (userId q : string) (w : World) :
  exists out w' ops,
    answerFrom env messages userId q w = (out, w') /\ sameTables w w' /\
    callsSince w w' ops /\ ~ In OpRewrite ops /\
    (forall res, out = Ok res ->
       cr_searchQuery res = q /\ cr_messages res = messages /\
       cr_documents res =
         List.map (select env (embedText env q))
                  (retrieved env userId (embedText env q) w)) /\
    ((forall o, o <> OpRewrite -> fault env o = None) -> exists res, out = Ok res).
Proof.
  unfold answerFrom, queryRaw. unfold bind at 1, call at 1.
  destruct (fault env OpEmbedQuery) as [e|] eqn:He.
  { eexists _, _, [OpEmbedQuery]. split; [reflexivity|].
    split; [now repeat split|]. split; [reflexivity|].
    split; [simpl; intros [?|[]]; discriminate|].
    split; [discriminate|]. intros Hno. rewrite Hno in He; discriminate. }
  unfold bind at 1, bind at 1, call at 1.
  destruct (fault env OpQuery) as [e|] eqn:Hq.
  { eexists _, _, [OpEmbedQuery; OpQuery]. split; [reflexivity|].
    split; [now repeat split|].
    split; [unfold callsSince; simpl; now rewrite <- app_assoc|].
    split; [simpl; intros [?|[?|[]]]; discriminate|].
    split; [discriminate|]. intros Hno. rewrite Hno in Hq; discriminate. }
  unfold gets at 1.
  set (w2 := add_call OpQuery (add_call OpEmbedQuery w)).
  assert (Hw2 : sameTables w w2) by now repeat split.
  set (docs := List.map (select env (embedText env q))
                        (retrieved env userId (embedText env q) w2)).
  destruct (packageDocs_run docs 0 w2) as (ctx & w3 & ops & Hrun & Hsame & Hcalls & Hno).
  unfold bind at 1. rewrite Hrun. unfold bind at 1, call at 1.
  assert (Hc3 : calls w3 = calls w ++ [OpEmbedQuery; OpQuery] ++ ops).
  { unfold callsSince in Hcalls. rewrite Hcalls. subst w2. simpl.
    now rewrite <- !app_assoc. }
  assert (Hdocs : docs = List.map (select env (embedText env q))
                                  (retrieved env userId (embedText env q) w)).
  { subst docs. now rewrite (retrieved_sameTables _ _ w w2). }
  assert (Hs3 : sameTables w w3) by exact (sameTables_trans _ _ _ Hw2 Hsame).
  destruct (fault env OpStream) as [e|] eqn:Hst.
  - eexists _, _, ([OpEmbedQuery; OpQuery] ++ ops ++ [OpStream]).
    split; [reflexivity|].
    split; [destruct Hs3 as (?&?&?); now repeat split|].
    split; [unfold callsSince; simpl; rewrite Hc3; simpl;
            now rewrite <- !app_assoc|].
    split.
    { simpl. intros [?|[?|H]]; try discriminate.
      apply in_app_or in H as [H|[H|[]]]; [tauto|discriminate]. }
    split; [discriminate|]. intros Hnone. rewrite Hnone in Hst; discriminate.
  - eexists _, _, ([OpEmbedQuery; OpQuery] ++ ops ++ [OpStream]).
    split; [reflexivity|].
    split; [destruct Hs3 as (?&?&?); now repeat split|].
    split; [unfold callsSince; simpl; rewrite Hc3; simpl;
            now rewrite <- !app_assoc|].
    split.
    { simpl. intros [?|[?|H]]; try discriminate.
      apply in_app_or in H as [H|[H|[]]]; [tauto|discriminate]. }
    split; [|intros _; eexists; reflexivity].
    intros res [= <-]. simpl. now repeat split.
Qed.

Lemma chat_documents (messages : list Message) (userId : string)
    (w w' : World) (res : ChatResult) :
  chat env messages userId w = (Ok res, w') ->
  cr_documents res =
    List.map (select env (embedText env (cr_searchQuery res)))
             (retrieved env userId (embedText env (cr_searchQuery res)) w).
Proof.
  unfold chat.
  destruct (last messages) as [m|]; [|discriminate].
  destruct (String.eqb (content m) EmptyString); [discriminate|].
  destruct (refineSearchQuery_run messages m w) as (q & w1 & Hq & Hsame & _).
  unfold bind. rewrite Hq.
  destruct (answerFrom_run messages userId q w1)
    as (out & w2 & ops & Hrun & _ & _ & _ & Hok & _).
  rewrite Hrun. intros [= -> ->].
  destruct (Hok res eq_refl) as (-> & _ & ->).
  now rewrite (retrieved_sameTables _ _ w w1).
Qed.

(** C1: every row that the similarity query of [chat] keeps for a user is a
    chunk of that user or a chunk of a public file, whatever the query
    vector; and the documents a successful [chat] works with are exactly
    those rows, for the embedding of its search query. *)
Theorem chat_retrieval_authorized (messages : list Message) (userId : string)
    (w : World) :
  (forall q, Forall (authorized userId w) (retrieved env userId q w)) /\
  (forall res w',
     chat env messages userId w = (Ok res, w') ->
     cr_documents res =
       List.map (select env (embedText env (cr_searchQuery res)))
                (retrieved env userId (embedText env (cr_searchQuery res)) w)).
Proof.
  split; [intros q; apply retrieved_authorized|].
  intros res w'. apply chat_documents.
Qed.

Lemma retrieved_sorted (userId : string) (q : Vec) (w : World) :
  StronglySorted (ascending (distance env q)) (retrieved env userId q w).
Proof. unfold retrieved. apply firstn_sorted, orderBy_sorted. Qed.

Lemma select_sorted (q : Vec) (l : list (Document * option File)) :
  StronglySorted (ascending (distance env q)) l ->
  StronglySorted (ascending r_distance) (List.map (select env q) l).
Proof.
  induction 1 as [|r l Hs IH Hall]; simpl; constructor; [exact IH|].
  apply List.Forall_map. eapply List.Forall_impl; [|exact Hall].
  intros r' Hr'. exact Hr'.
Qed.

Lemma filter_all {A} (p : A -> bool) (l : list A) :
  Forall (fun x => p x = true) l -> List.filter p l = l.
Proof.
  induction 1 as [|x l Hx _ IH]; simpl; [reflexivity|].
  now rewrite Hx, IH.
Qed.

Lemma sorted_app_le {A} (R : A -> A -> Prop) (l1 l2 : list A) :
  StronglySorted R (l1 ++ l2) ->
  Forall (fun a => Forall (R a) l2) l1.
Proof.
  induction l1 as [|a l1 IH]; simpl; intros Hs; [constructor|].
  inversion Hs as [|? ? Hs' Hall]; subst. constructor.
  - apply Forall_app in Hall. tauto.
  - now apply IH.
Qed.

Lemma orderBy_length {A} (key : A -> Q) (l : list A) :
  length (orderBy key l) = length l.
Proof. apply Permutation_length, orderBy_Permutation. Qed.

Lemma Forall2_select (q : Vec) (l : list (Document * option File)) :
  Forall2 (fun r row => r_content row = doc_content (fst r) /\
                        r_distance row = cosineDistance env (doc_embedding (fst r)) q)
          l (List.map (select env q) l).
Proof. induction l; simpl; constructor; auto. Qed.

(** The three chunks of the ranking scenario, in the table in any order. *)
Lemma retrieved_three (userId : string) (q : Vec) (w : World) (a b c : Document) :
  Permutation (documents w) [a; b; c] ->
  Forall (fun r => where_ userId r = true) (joined w) ->
  (cosineDistance env (doc_embedding a) q == 1 # 10)%Q ->
  (cosineDistance env (doc_embedding b) q == 5 # 10)%Q ->
  (cosineDistance env (doc_embedding c) q == 9 # 10)%Q ->
  retrieved env userId q w
  = List.map (fun d => (d, files w !! doc_fileId d)) [a; b; c].
Proof.
  intros Hperm Hall Ha Hb Hc.
  unfold retrieved. rewrite (filter_all _ _ Hall).
  set (J := fun d : Document => (d, files w !! doc_fileId d)).
  assert (Hp : Permutation (orderBy (distance env q) (joined w)) (List.map J [a; b; c])).
  { rewrite orderBy_Permutation. unfold joined. now apply Permutation_map. }
  assert (Heq : orderBy (distance env q) (joined w) = List.map J [a; b; c]).
  { apply (ascending_arrangement_unique (distance env q)); [exact Hp|apply orderBy_sorted|].
    simpl. unfold distance. simpl.
    repeat constructor; simpl; rewrite ?Ha, ?Hb, ?Hc; reflexivity. }
  rewrite Heq. reflexivity.
Qed.

(** C6: for every query vector, the rows that the similarity query hands
    back are the rows the query keeps, each with the content of its chunk
    and with the cosine distance of its embedding to the query vector as
    [distance]; they come in ascending order of that distance and are five
    of the rows the user may see (all of them when there are fewer), none
    of the rows left out being nearer than a row handed back; when the
    table holds three chunks the user may see, at distances 0.1, 0.5 and
    0.9, the rows are those three chunks in that order.  The query returns
    such rows whenever its call goes through, and the documents a
    successful [chat] works with are such rows for the embedding of its
    search query. *)
Theorem retrieval_ranked (userId : string) (q : Vec) (w : World) :
  let cosine := fun d : Document => cosineDistance env (doc_embedding d) q in
  let ranked := fun rows : list Row =>
    Forall2 (fun r row => r_content row = doc_content (fst r) /\
                          r_distance row = cosine (fst r))
            (retrieved env userId q w) rows /\
    StronglySorted (fun row row' => (r_distance row <= r_distance row')%Q) rows /\
    (exists rest,
       Permutation (retrieved env userId q w ++ rest)
                   (List.filter (where_ userId) (joined w)) /\
       Forall (fun r => Forall (fun r' => (cosine (fst r) <= cosine (fst r'))%Q) rest)
              (retrieved env userId q w)) /\
    length rows = Nat.min 5 (length (List.filter (where_ userId) (joined w))) /\
    (length rows <= 5)%nat /\
    (forall a b c,
       Permutation (documents w) [a; b; c] ->
       Forall (fun r => where_ userId r = true) (joined w) ->
       (cosine a == 1 # 10)%Q -> (cosine b == 5 # 10)%Q -> (cosine c == 9 # 10)%Q ->
       List.map r_content rows = [doc_content a; doc_content b; doc_content c] /\
       List.map r_distance rows = [cosine a; cosine b; cosine c]) in
  StronglySorted (ascending (distance env q)) (retrieved env userId q w) /\
  (length (retrieved env userId q w) <= 5)%nat /\
  (forall rows w', queryRaw env userId q w = (Ok rows, w') -> ranked rows) /\
  (fault env OpQuery = None ->
   exists rows w', queryRaw env userId q w = (Ok rows, w') /\ sameTables w w') /\
  (forall messages res w',
     chat env messages userId w = (Ok res, w') ->
     embedText env (cr_searchQuery res) = q ->
     ranked (cr_documents res)).
Proof.
  intros cosine ranked.
  assert (Hranked : ranked (List.map (select env q) (retrieved env userId q w))).
  { subst ranked cosine. cbv beta.
    assert (Hlen : length (List.map (select env q) (retrieved env userId q w))
                   = Nat.min 5 (length (List.filter (where_ userId) (joined w)))).
    { rewrite length_map. unfold retrieved. now rewrite length_firstn, orderBy_length. }
    split; [apply Forall2_select|].
    split; [exact (select_sorted q _ (retrieved_sorted userId q w))|].
    split.
    { exists (skipn 5 (orderBy (distance env q)
                               (List.filter (where_ userId) (joined w)))).
      unfold retrieved. split.
      - rewrite firstn_skipn. apply orderBy_Permutation.
      - apply (sorted_app_le (ascending (distance env q))).
        rewrite firstn_skipn. apply orderBy_sorted. }
    split; [exact Hlen|]. split; [rewrite Hlen; apply Nat.le_min_l|].
    intros a b c Hperm Hall Ha Hb Hc.
    rewrite (retrieved_three userId q w a b c Hperm Hall Ha Hb Hc).
    split; reflexivity. }
  split; [apply retrieved_sorted|].
  split; [unfold retrieved; apply firstn_le_length|].
  split; [|split].
  - intros rows w' Hrun. unfold queryRaw in Hrun. revert Hrun. run.
    destruct (fault env OpQuery); [discriminate|]. simpl.
    intros [= <- _].
    rewrite (retrieved_sameTables userId q w (add_call OpQuery w));
      [exact Hranked|now repeat split].
  - intros Hq. unfold queryRaw. run. rewrite Hq. simpl.
    eexists _, _. split; [reflexivity|]. now repeat split.
  - intros messages res w' Hchat Hvec.
    rewrite (chat_documents _ _ _ _ _ Hchat), Hvec. exact Hranked.
Qed.

(** C7: when the conversation is a single message, or when it is longer and
    the rewrite call fails, the search query is the content of the last
    message as it stands, and [chat] goes on from there as it would for that
    query: a failing rewrite is logged, not raised.  With a single message
    no rewrite call is made. *)
Theorem chat_search_query (messages : list Message) (m : Message)
    (userId : string) (w : World) :
  last messages = Some m ->
  length messages = 1%nat \/
    ((1 < length messages)%nat /\ is_Some (fault env OpRewrite)) ->
  exists w1,
    refineSearchQuery env messages m w = (Ok (content m), w1) /\
    sameTables w w1 /\
    chat env messages userId w =
      (if String.eqb (content m) EmptyString
       then (Throw (ApiError 400 "Messages content is required"), w)
       else answerFrom env messages userId (content m) w1) /\
    (length messages = 1%nat ->
       w1 = w /\
       forall out w', chat env messages userId w = (out, w') ->
                      exists ops, callsSince w w' ops /\ ~ In OpRewrite ops) /\
    (forall res w', chat env messages userId w = (Ok res, w') ->
                    cr_searchQuery res = content m) /\
    (content m <> EmptyString ->
     (forall o, o <> OpRewrite -> fault env o = None) ->
     exists res w', chat env messages userId w = (Ok res, w')).
Proof.
  intros Hlast Hcase.
  assert (Hq : exists w1,
    refineSearchQuery env messages m w = (Ok (content m), w1) /\ sameTables w w1 /\
    (length messages = 1%nat -> w1 = w)).
  { unfold refineSearchQuery. destruct Hcase as [H1|[Hlen [e He]]].
    - rewrite H1. simpl. exists w. repeat split; auto.
    - apply Nat.ltb_lt in Hlen as Hlen'. rewrite Hlen'. run. rewrite He. simpl.
      eexists. split; [reflexivity|]. split; [now repeat split|]. lia. }
  destruct Hq as (w1 & Hq & Hsame & Hw1). exists w1.
  assert (Hchat : chat env messages userId w =
    (if String.eqb (content m) EmptyString
     then (Throw (ApiError 400 "Messages content is required"), w)
     else answerFrom env messages userId (content m) w1)).
  { unfold chat. rewrite Hlast.
    destruct (String.eqb (content m) EmptyString); [reflexivity|].
    unfold bind. now rewrite Hq. }
  destruct (answerFrom_run messages userId (content m) w1)
    as (out & w2 & ops & Hrun & _ & Hcalls & Hno & Hok & Hall).
  split; [exact Hq|]. split; [exact Hsame|]. split; [exact Hchat|].
  destruct (String.eqb_spec (content m) EmptyString) as [Hempty|Hfull].
  - split; [|split].
    + intros H1. split; [now apply Hw1|].
      intros out' w' Hrun'. rewrite Hchat in Hrun'. injection Hrun' as <- <-.
      exists []. split; [|tauto]. unfold callsSince. now rewrite app_nil_r.
    + intros res w' Hrun'. rewrite Hchat in Hrun'. discriminate.
    + intros Hne. contradiction.
  - split; [|split].
    + intros H1. split; [now apply Hw1|].
      intros out' w' Hrun'. rewrite Hchat, Hrun in Hrun'. injection Hrun' as <- <-.
      exists ops. rewrite <- (Hw1 H1). auto.
    + intros res w' Hrun'. rewrite Hchat, Hrun in Hrun'. injection Hrun' as -> <-.
      now destruct (Hok res eq_refl).
    + intros _ Hnone. destruct (Hall Hnone) as [res ->].
      exists res, w2. now rewrite Hchat.
Qed.

End AgentServiceFacts.

Section AgentServiceRuns.
Import AgentValidation AgentService.

(** The query of alice over the demo tables: her two chunks and the chunk of
    the public handbook, nearest first; the nearer chunk of bob's private
    file is not among them. *)
Example retrieved_demo :
  List.map fst (retrieved (Demo.env []) "alice" [] Demo.world)
  = [Demo.near; Demo.middle; Demo.far].
Proof. vm_compute. reflexivity. Qed.

(** A question on its own is looked up as it stands, with no rewrite call. *)
Example chat_single_message_demo :
  let r := chat (Demo.env []) [Demo.question] "alice" Demo.world in
  (cr_searchQuery <$> (match fst r with Ok res => Some res | Throw _ => None end))
  = Some "What is the budget?" /\
  calls (snd r) = [OpEmbedQuery; OpQuery; OpPresignGet 0; OpPresignGet 1;
                   OpPresignGet 2; OpStream].
Proof. split; vm_compute; reflexivity. Qed.

(** A conversation of three messages whose rewrite call times out is
    answered from the last message as it stands. *)
Lemma chat_search_query_witness :
  last Demo.conversation = Some (mkMessage RoleUser "And SpaceX?") /\
  exists res w',
    chat (Demo.env [OpRewrite]) Demo.conversation "alice" Demo.world = (Ok res, w') /\
    cr_searchQuery res = "And SpaceX?".
Proof.
  split; [reflexivity|].
  destruct (chat_search_query (Demo.env [OpRewrite]) Demo.conversation
              (mkMessage RoleUser "And SpaceX?") "alice" Demo.world)
    as (w1 & _ & _ & _ & _ & Hq & Hok).
  - reflexivity.
  - right. split; [simpl; lia|]. exists Demo.boom. reflexivity.
  - destruct Hok as (res & w' & Hrun).
    + discriminate.
    + intros o Ho. simpl. unfold Demo.failingAt.
      rewrite bool_decide_eq_false_2; [reflexivity|].
      intros Hin. apply list_elem_of_singleton in Hin. contradiction.
    + exists res, w'. split; [exact Hrun|]. exact (Hq _ _ Hrun).
Defined.

(** Three chunks alice may see, stored in the order far, near, middle: the
    documents of her chat are near, middle, far. *)
Lemma retrieval_ranked_witness :
  exists res w',
    chat (Demo.env []) [Demo.question] "alice" Demo.world3 = (Ok res, w') /\
    List.map r_content (cr_documents res)
    = [doc_content Demo.near; doc_content Demo.middle; doc_content Demo.far] /\
    List.map r_distance (cr_documents res) = [1 # 10; 5 # 10; 9 # 10]%Q.
Proof.
  destruct (chat (Demo.env []) [Demo.question] "alice" Demo.world3)
    as [out w'] eqn:Hrun.
  assert (Hout : exists res, out = Ok res).
  { vm_compute in Hrun. injection Hrun as <- _. eexists; reflexivity. }
  destruct Hout as (res & ->). exists res, w'. split; [reflexivity|].
  destruct (retrieval_ranked (Demo.env []) "alice"
              (embedText (Demo.env []) (cr_searchQuery res)) Demo.world3)
    as (_ & _ & _ & _ & Hchat).
  destruct (Hchat _ _ _ Hrun eq_refl) as (_ & _ & _ & _ & _ & Hthree).
  destruct (Hthree Demo.near Demo.middle Demo.far) as [Hc Hd].
  - apply (Permutation_cons_append [Demo.near; Demo.middle] Demo.far).
  - apply (bool_decide_unpack _). vm_compute. exact I.
  - vm_compute; reflexivity.
  - vm_compute; reflexivity.
  - vm_compute; reflexivity.
  - split; [exact Hc|]. rewrite Hd. reflexivity.
Defined.

End AgentServiceRuns.

(** ** Ingestion *)

Section IngestionFacts.
Import IngestionWorker.
Context (env : Env).

Lemma processJob_unfold (jobId fileId : string) (w : World) :
  processJob env jobId fileId w =
  tryCatch (processJob_try env fileId) (processJob_catch env jobId fileId)
           (started jobId fileId w).
Proof. reflexivity. Qed.

(** What the [catch] block does to the world it finds. *)
Lemma processJob_catch_run (jobId fileId : string) (error : Err) (w1 : World) :
  exists w2,
    processJob_catch env jobId fileId error w1 = (Throw error, w2) /\
    documents w2 = documents w1 /\ bucket w2 = bucket w1 /\
    (fault env OpMarkFailed = None ->
     forall f, files w1 !! fileId = Some f ->
       files w2 = <[fileId := with_status FAILED f]> (files w1)) /\
    (is_Some (fault env OpMarkFailed) \/ files w1 !! fileId = None ->
     files w2 = files w1).
Proof.
  unfold processJob_catch, fileUpdate. run.
  destruct (fault env OpMarkFailed) as [e|] eqn:Hf; simpl.
  - eexists. split; [reflexivity|]. simpl. repeat split; auto. discriminate.
  - destruct (files w1 !! fileId) as [f|] eqn:Hrow; simpl.
    + eexists. split; [reflexivity|]. simpl. repeat split; auto.
      * intros _ f' [= <-]. reflexivity.
      * intros [[e He]|?]; discriminate.
    + eexists. split; [reflexivity|]. simpl. repeat split; auto. discriminate.
Qed.

(** A run of the [try] block that ends without an exception is the run of
    the job. *)
Lemma processJob_success (jobId fileId : string) (w w1 : World) :
  processJob_try env fileId (started jobId fileId w) = (Ok tt, w1) ->
  processJob env jobId fileId w = (Ok tt, w1).
Proof.
  intros H. rewrite processJob_unfold. unfold tryCatch. now rewrite H.
Qed.

(** C8: when a step of the job raises an error, the job marks the file
    failed and raises that same error again: if the row is there and the
    update goes through, the row gets status [FAILED]; if the update fails
    or the row is gone, that is swallowed and the tables stay as they are.
    Nothing else is touched. *)
Theorem processJob_failure_marks_failed (jobId fileId : string) (w w1 : World)
    (e : Err) :
  processJob_try env fileId (started jobId fileId w) = (Throw e, w1) ->
  exists w2,
    processJob env jobId fileId w = (Throw e, w2) /\
    documents w2 = documents w1 /\ bucket w2 = bucket w1 /\
    (fault env OpMarkFailed = None ->
     forall f, files w1 !! fileId = Some f ->
       files w2 = <[fileId := with_status FAILED f]> (files w1) /\
       (status <$> files w2 !! fileId) = Some FAILED) /\
    (is_Some (fault env OpMarkFailed) \/ files w1 !! fileId = None ->
     files w2 = files w1).
Proof.
  intros Htry.
  destruct (processJob_catch_run jobId fileId e w1)
    as (w2 & Hcatch & Hdocs & Hbucket & Hmark & Hswallow).
  exists w2. rewrite processJob_unfold. unfold tryCatch. rewrite Htry.
  split; [exact Hcatch|]. split; [exact Hdocs|]. split; [exact Hbucket|].
  split; [|exact Hswallow].
  intros Hf f Hrow. rewrite (Hmark Hf f Hrow). split; [reflexivity|].
  now rewrite lookup_insert_eq.
Qed.

(** C2, as the worker has it: a job for a file whose row is gone fails.
    The error it raises is "File record not found: <fileId>" when the
    lookup answers, and the error of the lookup when the lookup rejects.
    The [catch] block then tries to mark the file [FAILED]: that update is
    made, finds no row (or rejects), and its error is logged and swallowed.
    These two are the only calls of the job, and no row, chunk or object is
    touched. *)
Theorem processJob_missing_row_fails (jobId fileId : string) (w : World) :
  files w !! fileId = None ->
  let raised := match fault env OpFindUnique with
                | Some e => e
                | None => jsError ("File record not found: " +:+ fileId)
                end in
  let swallowed := match fault env OpMarkFailed with
                   | Some e => e
                   | None => recordNotFound
                   end in
  exists w',
    processJob env jobId fileId w = (Throw raised, w') /\
    sameTables w w' /\
    callsSince w w' [OpFindUnique; OpMarkFailed] /\
    logs w'
    = logs w ++
      [(Info, "Starting ingestion job " +:+ jobId +:+ " for fileId: " +:+ fileId);
       (Error, "Error processing ingestion job " +:+ jobId +:+ ": " +:+
               errToString raised);
       (Error, "Failed to update status to FAILED: " +:+ errToString swallowed)].
Proof.
  intros Hrow raised swallowed. subst raised swallowed.
  unfold processJob, processJob_try, processJob_catch, findUnique, fileUpdate,
    callsSince, sameTables.
  run.
  destruct (fault env OpFindUnique) as [e|]; simpl; rewrite ?Hrow; simpl;
    destruct (fault env OpMarkFailed) as [e'|]; simpl; rewrite ?Hrow; simpl;
    eexists; (split; [reflexivity|]); simpl; rewrite <- ?app_assoc; simpl;
    now repeat split.
Qed.


Lemma head_filter_found {A} (p : A -> bool) (l : list A) (x : A) :
  In x l -> p x = true -> exists d, head (List.filter p l) = Some d /\ p d = true.
Proof.
  induction l as [|y l IH]; simpl; [tauto|].
  intros [->|Hin] Hx.
  - rewrite Hx. now exists x.
  - destruct (p y) eqn:Hy; [now exists y|]. now apply IH.
Qed.

(** C3, as the worker has it: when the duplicate check finds an ingested
    file of the same user with the same hash, the job deletes the uploaded
    object; if that delete goes through, it sets the status [DUPLICATE],
    stores the hash and ends without an error; if the delete raises an
    error, the error is not swallowed: the job marks the file [FAILED] and
    fails with that error, and the object stays. *)
Theorem processJob_duplicate (jobId fileId : string) (w : World)
    (rec dup : File) (k : string) (bytes : Bytes) :
  keyed w ->
  files w !! fileId = Some rec ->
  bucket w !! fileKey rec = Some (mkS3Object (Some bytes)) ->
  files w !! k = Some dup ->
  duplicateOf (userId rec) (sha256hex env bytes) fileId dup = true ->
  (forall o, In o [OpFindUnique; OpMarkProcessing; OpGetObject; OpReadBody;
                   OpFindDuplicate] -> fault env o = None) ->
  (fault env OpDeleteObject = None -> fault env OpMarkDuplicate = None ->
   exists w',
     processJob env jobId fileId w = (Ok tt, w') /\
     files w' = <[fileId := with_hash (sha256hex env bytes)
                              (with_status DUPLICATE rec)]> (files w) /\
     bucket w' = delete (fileKey rec) (bucket w) /\
     documents w' = documents w) /\
  (forall e, fault env OpDeleteObject = Some e ->
   exists w',
     processJob env jobId fileId w = (Throw e, w') /\
     bucket w' = bucket w /\ documents w' = documents w /\
     (fault env OpMarkFailed = None ->
      files w' = <[fileId := with_status FAILED rec]> (files w))).
Proof.
  intros Hkeyed Hrow Hobj Hk Hdup Hquiet.
  assert (H1 : fault env OpFindUnique = None) by (apply Hquiet; simpl; tauto).
  assert (H2 : fault env OpMarkProcessing = None) by (apply Hquiet; simpl; tauto).
  assert (H3 : fault env OpGetObject = None) by (apply Hquiet; simpl; tauto).
  assert (H4 : fault env OpReadBody = None) by (apply Hquiet; simpl; tauto).
  assert (H5 : fault env OpFindDuplicate = None) by (apply Hquiet; simpl; tauto).
  assert (Hne : k <> fileId).
  { rewrite <- (Hkeyed _ _ Hk). unfold duplicateOf in Hdup.
    apply andb_true_iff in Hdup as [_ Hdup].
    apply negb_true_iff in Hdup. now apply String.eqb_neq. }
  destruct (head_filter_found
              (duplicateOf (userId rec) (sha256hex env bytes) fileId)
              ((map_to_list (<[fileId:=with_status PROCESSING rec]> (files w))).*2)
              dup) as (d & Hd & _).
  { apply list_elem_of_In, list_elem_of_fmap. exists (k, dup).
    split; [reflexivity|]. apply elem_of_map_to_list.
    now rewrite lookup_insert_ne. }
  { exact Hdup. }
  rewrite processJob_unfold.
  unfold tryCatch at 1.
  unfold processJob_try, findUnique, fileUpdate, getObject, findFirst, deleteObject.
  run. rewrite H1. simpl. rewrite Hrow. simpl. rewrite H2. simpl. rewrite Hrow. simpl.
  rewrite H3. simpl. rewrite Hobj. simpl. rewrite H4. simpl. rewrite H5. simpl.
  rewrite Hd. split.
  - intros Hdel Hmark. rewrite Hdel, Hmark. simpl.
    rewrite lookup_insert_eq. eexists. split; [reflexivity|]. simpl.
    split; [|split; reflexivity].
    now rewrite insert_insert_eq.
  - intros e Hdel. rewrite Hdel.
    match goal with
    | |- context [processJob_catch env jobId fileId e ?W] =>
        destruct (processJob_catch_run jobId fileId e W)
          as (w2 & Hcatch & Hdocs & Hbucket & Hmark & _)
    end.
    exists w2. split; [exact Hcatch|]. simpl in *.
    split; [exact Hbucket|]. split; [exact Hdocs|].
    intros Hf. rewrite (Hmark Hf (with_status PROCESSING rec)).
    + now rewrite insert_insert_eq.
    + apply lookup_insert_eq.
Qed.

End IngestionFacts.

Section IngestionRuns.
Import IngestionWorker.

(** C2 as claimed fails: on the demo tables, which hold no file "file-404",
    the job for that file ends with an error instead of ending quietly. *)
Lemma processJob_missing_row_not_a_noop :
  files Demo.world !! "file-404" = None /\
  fst (processJob (Demo.env []) "job-1" "file-404" Demo.world)
  = Throw (jsError "File record not found: file-404").
Proof. split; vm_compute; reflexivity. Qed.

(** The job for a file that the demo tables do not hold. *)
Lemma processJob_missing_row_fails_witness :
  files Demo.world !! "file-404" = None /\
  exists w',
    processJob (Demo.env []) "job-1" "file-404" Demo.world
    = (Throw (jsError "File record not found: file-404"), w') /\
    sameTables Demo.world w' /\
    callsSince Demo.world w' [OpFindUnique; OpMarkFailed] /\
    last (logs w')
    = Some (Error, "Failed to update status to FAILED: " +:+
                   "PrismaClientKnownRequestError: Record to update not found.").
Proof.
  split; [vm_compute; reflexivity|].
  destruct (processJob_missing_row_fails (Demo.env []) "job-1" "file-404"
              Demo.world) as (w' & Hrun & Hsame & Hcalls & Hlogs).
  - vm_compute; reflexivity.
  - exists w'. split; [exact Hrun|]. split; [exact Hsame|].
    split; [exact Hcalls|]. rewrite Hlogs. reflexivity.
Defined.

(** C3 as claimed fails: "file-2" holds the bytes of the ingested "file-1"
    of the same user; when the delete of its object times out, the job
    fails with that error and the file ends as [FAILED], not [DUPLICATE]. *)
Lemma processJob_duplicate_delete_not_best_effort :
  duplicateOf "alice" (sha256hex (Demo.env [OpDeleteObject]) Demo.budget)
              "file-2" Demo.file1 = true /\
  fst (processJob (Demo.env [OpDeleteObject]) "job-1" "file-2" Demo.world)
  = Throw Demo.boom /\
  (status <$> files (snd (processJob (Demo.env [OpDeleteObject]) "job-1" "file-2"
                                     Demo.world)) !! "file-2")
  = Some FAILED.
Proof. repeat split; vm_compute; reflexivity. Qed.

Lemma demo_world_keyed : keyed Demo.world.
Proof.
  unfold keyed. apply (bool_decide_unpack _). vm_compute. exact I.
Qed.

(** The job for "file-2" when every collaborator answers: the copy is
    marked [DUPLICATE] with its hash and its object is gone. *)
Lemma processJob_duplicate_witness :
  exists w',
    processJob (Demo.env []) "job-1" "file-2" Demo.world = (Ok tt, w') /\
    files w' !! "file-2"
    = Some (with_hash "The total budget for Q4 is $50,000."
                      (with_status DUPLICATE Demo.file2)) /\
    bucket w' !! "users/alice/2-budget-copy.txt" = None.
Proof.
  destruct (processJob_duplicate (Demo.env []) "job-1" "file-2" Demo.world
              Demo.file2 Demo.file1 "file-1" Demo.budget) as [Hok _].
  - exact demo_world_keyed.
  - vm_compute; reflexivity.
  - vm_compute; reflexivity.
  - vm_compute; reflexivity.
  - vm_compute; reflexivity.
  - intros o _. reflexivity.
  - destruct Hok as (w' & Hrun & Hfiles & Hbucket & _); [reflexivity|reflexivity|].
    exists w'. split; [exact Hrun|]. rewrite Hfiles, Hbucket. split.
    + apply lookup_insert_eq.
    + apply lookup_delete_eq.
Defined.

(** The job for "file-5" when the embedding of its first chunk times out. *)
Lemma processJob_failure_marks_failed_witness :
  exists w2,
    processJob (Demo.env [OpEmbedChunk 0]) "job-7" "file-5" Demo.world
    = (Throw Demo.boom, w2) /\
    (status <$> files w2 !! "file-5") = Some FAILED.
Proof.
  destruct (processJob_failure_marks_failed (Demo.env [OpEmbedChunk 0])
              "job-7" "file-5" Demo.world
              (snd (processJob_try (Demo.env [OpEmbedChunk 0]) "file-5"
                                   (started "job-7" "file-5" Demo.world)))
              Demo.boom) as (w2 & Hrun & _ & _ & Hmark & _).
  - vm_compute; reflexivity.
  - exists w2. split; [exact Hrun|].
    apply (Hmark eq_refl (with_hash "Lunch is at noon."
                                    (with_status PROCESSING Demo.file5))).
    vm_compute; reflexivity.
Defined.

End IngestionRuns.

(** ** The chunker *)

Section WindowsFacts.
Import Chunker.
Context {A : Type}.
Variables (chunkSize chunkOverlap : nat).
Hypothesis overlap_lt_size : (chunkOverlap < chunkSize)%nat.

Abbreviation step := (chunkSize - chunkOverlap)%nat.

Lemma windows_short (fuel : nat) (text : list A) :
  (0 < fuel)%nat -> (length text <= chunkSize)%nat ->
  windows chunkSize chunkOverlap fuel text = [text].
Proof.
  intros Hfuel Hlen. destruct fuel as [|fuel]; [lia|]. simpl.
  apply Nat.leb_le in Hlen. now rewrite Hlen.
Qed.

Lemma windows_long (fuel : nat) (text : list A) :
  (0 < fuel)%nat -> (chunkSize < length text)%nat ->
  windows chunkSize chunkOverlap fuel text
  = firstn chunkSize text
      :: windows chunkSize chunkOverlap (fuel - 1) (skipn step text).
Proof.
  intros Hfuel Hlen. destruct fuel as [|fuel]; [lia|]. simpl.
  apply Nat.leb_gt in Hlen. rewrite Hlen.
  now replace (fuel - 0)%nat with fuel by lia.
Qed.

(** The first window of a text and the text agree on their first
    [chunkOverlap] characters. *)
Lemma windows_head (fuel : nat) (text : list A) :
  (0 < fuel)%nat ->
  exists c rest,
    windows chunkSize chunkOverlap fuel text = c :: rest /\
    firstn chunkOverlap c = firstn chunkOverlap text.
Proof.
  intros Hfuel.
  destruct (le_lt_dec (length text) chunkSize) as [Hlen|Hlen].
  - rewrite windows_short by assumption. now exists text, [].
  - rewrite windows_long by assumption. eexists _, _. split; [reflexivity|].
    rewrite firstn_firstn. f_equal. lia.
Qed.

(** The tail of a window that is followed by another one is the head of
    what remains of the text. *)
Lemma full_window_tail (text : list A) :
  (chunkSize < length text)%nat ->
  lastN chunkOverlap (firstn chunkSize text)
  = firstn chunkOverlap (skipn step text).
Proof.
  intros Hlen. unfold lastN.
  rewrite firstn_length_le by lia.
  rewrite skipn_firstn_comm. f_equal. lia.
Qed.

Lemma windows_overlap (fuel : nat) (text : list A) (i : nat) (c c' : list A) :
  (length text <= fuel)%nat ->
  windows chunkSize chunkOverlap fuel text !! i = Some c ->
  windows chunkSize chunkOverlap fuel text !! S i = Some c' ->
  firstn chunkOverlap c' = lastN chunkOverlap c /\
  length (firstn chunkOverlap c') = chunkOverlap.
Proof.
  revert text i. induction fuel as [|fuel IH]; intros text i Hfuel Hc Hc'.
  { discriminate. }
  destruct (le_lt_dec (length text) chunkSize) as [Hlen|Hlen].
  { rewrite windows_short in Hc' by (assumption || lia). discriminate. }
  rewrite windows_long in Hc, Hc' by (assumption || lia).
  replace (S fuel - 1)%nat with fuel in * by lia.
  assert (Hrest : (length (skipn step text) <= fuel)%nat).
  { rewrite length_skipn. lia. }
  destruct i as [|i]; simpl in Hc, Hc'.
  - injection Hc as <-.
    assert (Hpos : (0 < fuel)%nat) by lia.
    destruct (windows_head fuel (skipn step text) Hpos) as (h & rest & Hw & Hh).
    rewrite Hw in Hc'. simpl in Hc'. injection Hc' as <-.
    rewrite Hh, full_window_tail by assumption. split; [reflexivity|].
    rewrite firstn_length_le; [reflexivity|]. rewrite length_skipn. lia.
  - now apply (IH (skipn step text) i).
Qed.

Lemma windows_bound (fuel : nat) (text : list A) :
  Forall (fun c => (length c <= chunkSize)%nat)
         (windows chunkSize chunkOverlap fuel text).
Proof.
  revert text. induction fuel as [|fuel IH]; intros text; simpl; [constructor|].
  destruct (length text <=? chunkSize)%nat eqn:Hlen.
  - apply Nat.leb_le in Hlen. now repeat constructor.
  - constructor; [|apply IH]. apply firstn_le_length.
Qed.

(** Without the characters they repeat, the windows of a text that is
    longer than the overlap make up the text after the overlap. *)
Lemma windows_fresh_tail (fuel : nat) (text : list A) :
  (length text <= fuel)%nat -> (0 < fuel)%nat ->
  List.concat (List.map (skipn chunkOverlap)
                        (windows chunkSize chunkOverlap fuel text))
  = skipn chunkOverlap text.
Proof.
  revert text. induction fuel as [|fuel IH]; intros text Hfuel Hpos; [lia|].
  destruct (le_lt_dec (length text) chunkSize) as [Hlen|Hlen].
  - rewrite windows_short by assumption. simpl. apply app_nil_r.
  - rewrite windows_long by assumption.
    replace (S fuel - 1)%nat with fuel by lia. simpl.
    rewrite IH by (rewrite ?length_skipn; lia).
    rewrite skipn_skipn.
    replace (chunkOverlap + step)%nat with chunkSize by lia.
    rewrite <- (firstn_skipn chunkSize text) at 3.
    rewrite skipn_app, firstn_length_le by lia.
    replace (chunkOverlap - chunkSize)%nat with 0%nat by lia. reflexivity.
Qed.

Lemma chunk_nonempty (text : list A) :
  (0 < length text)%nat ->
  chunk chunkSize chunkOverlap text
  = windows chunkSize chunkOverlap (length text) text.
Proof. destruct text; simpl; [lia|reflexivity]. Qed.

Lemma chunk_coverage (text : list A) :
  List.concat (fresh chunkOverlap (chunk chunkSize chunkOverlap text)) = text.
Proof.
  destruct (Nat.eq_dec (length text) 0) as [H0|H0].
  { destruct text; [reflexivity|discriminate]. }
  assert (Hpos : (0 < length text)%nat) by lia.
  rewrite chunk_nonempty by assumption.
  destruct (le_lt_dec (length text) chunkSize) as [Hlen|Hlen].
  - rewrite windows_short by assumption. simpl. apply app_nil_r.
  - rewrite windows_long by assumption. unfold fresh. simpl List.concat.
    rewrite windows_fresh_tail by (rewrite ?length_skipn; lia).
    rewrite skipn_skipn.
    replace (chunkOverlap + step)%nat with chunkSize by lia.
    apply firstn_skipn.
Qed.

Lemma chunk_overlap (text : list A) (i : nat) (c c' : list A) :
  chunk chunkSize chunkOverlap text !! i = Some c ->
  chunk chunkSize chunkOverlap text !! S i = Some c' ->
  firstn chunkOverlap c' = lastN chunkOverlap c /\
  length (firstn chunkOverlap c') = chunkOverlap.
Proof.
  unfold chunk. destruct text as [|a text]; [discriminate|].
  now apply windows_overlap.
Qed.

Lemma chunk_bound (text : list A) :
  Forall (fun c => (length c <= chunkSize)%nat) (chunk chunkSize chunkOverlap text).
Proof.
  unfold chunk. destruct text; [constructor|apply windows_bound].
Qed.

(** A text that one window cannot hold but two can is cut in two. *)
Lemma chunk_two (text : list A) :
  (chunkSize < length text)%nat -> (length text <= chunkSize + step)%nat ->
  chunk chunkSize chunkOverlap text = [firstn chunkSize text; skipn step text].
Proof.
  intros Hlo Hhi. rewrite chunk_nonempty by lia.
  rewrite windows_long by lia.
  rewrite windows_short; [reflexivity|lia|]. rewrite length_skipn. lia.
Qed.

End WindowsFacts.

Section ChunkTextFacts.
Import Chunker.
Context {A : Type}.

(** C4, on the chunker of the contract: in the chunks of a text of at least
    1000 characters, every chunk after the first starts with the last 200
    characters of the chunk before it; and a text of 1800 characters gives
    exactly two chunks, the second of which starts with the characters
    [800, 1000) of the first. *)
Theorem chunkText_overlap (text : list A) :
  (1000 <= length text)%nat ->
  (forall i c c',
     chunkText text !! i = Some c -> chunkText text !! S i = Some c' ->
     firstn 200 c' = lastN 200 c /\ length (firstn 200 c') = 200%nat) /\
  (length text = 1800%nat ->
   exists c0 c1,
     chunkText text = [c0; c1] /\
     firstn 200 c1 = firstn 200 (skipn 800 c0)).
Proof.
  intros _. split.
  - intros i c c'. unfold chunkText. apply chunk_overlap. lia.
  - intros Hlen. exists (firstn 1000 text), (skipn 800 text).
    split.
    + unfold chunkText. rewrite (chunk_two 1000 200) by lia. reflexivity.
    + rewrite skipn_firstn_comm, firstn_firstn. reflexivity.
Qed.

(** C5, on the chunker of the contract: the first chunk followed by every
    later chunk without its first 200 characters is the text again, and no
    chunk is longer than 1000 characters. *)
Theorem chunkText_coverage (text : list A) :
  List.concat (fresh 200 (chunkText text)) = text /\
  Forall (fun c => (length c <= 1000)%nat) (chunkText text).
Proof.
  split.
  - unfold chunkText. apply chunk_coverage. lia.
  - unfold chunkText. apply chunk_bound.
Qed.

End ChunkTextFacts.

(** A text of 900 times "a" and 900 times "b". *)
Lemma chunkText_overlap_witness :
  let text := repeat "a"%char 900 ++ repeat "b"%char 900 in
  (1000 <= length text)%nat /\
  Chunker.chunkText text
  = [repeat "a"%char 900 ++ repeat "b"%char 100; repeat "a"%char 100 ++ repeat "b"%char 900] /\
  exists c0 c1,
    Chunker.chunkText text = [c0; c1] /\ firstn 200 c1 = firstn 200 (skipn 800 c0).
Proof.
  split; [vm_compute; lia|]. split; [vm_compute; reflexivity|].
  apply (chunkText_overlap (repeat "a"%char 900 ++ repeat "b"%char 900)).
  - vm_compute; lia.
  - vm_compute; reflexivity.
Defined.

(** ** What a run leaves as it was *)

Section PreservesFacts.
Import Frame.
Context (env : Env) (R : World -> World -> Prop).
Hypothesis R_refl : forall w, R w w.
Hypothesis R_trans : forall w1 w2 w3, R w1 w2 -> R w2 w3 -> R w1 w3.
Hypothesis R_call : forall o w, R w (add_call o w).
Hypothesis R_log : forall l msg w, R w (add_log l msg w).

Lemma bind_run {A B} (m : M A) (k : A -> M B) (w : World) :
  bind m k w = match m w with
               | (Ok a, w') => k a w'
               | (Throw e, w') => (Throw e, w')
               end.
Proof. reflexivity. Qed.

Lemma preserves_ret {A} (a : A) : preserves R (ret a).
Proof. intros w out w' [= <- <-]. apply R_refl. Qed.

Lemma preserves_throw {A} (e : Err) : preserves R (@throw A e).
Proof. intros w out w' [= <- <-]. apply R_refl. Qed.

Lemma preserves_bind {A B} (m : M A) (k : A -> M B) :
  preserves R m -> (forall a, preserves R (k a)) -> preserves R (bind m k).
Proof.
  intros Hm Hk w out w' H. rewrite bind_run in H.
  destruct (m w) as [[a|e] w1] eqn:Hrun.
  - eapply R_trans; [eapply Hm, Hrun|eapply Hk, H].
  - injection H as <- <-. eapply Hm, Hrun.
Qed.

Lemma preserves_tryCatch {A} (m : M A) (h : Err -> M A) :
  preserves R m -> (forall e, preserves R (h e)) -> preserves R (tryCatch m h).
Proof.
  intros Hm Hh w out w' H. unfold tryCatch in H.
  destruct (m w) as [[a|e] w1] eqn:Hrun.
  - injection H as <- <-. eapply Hm, Hrun.
  - eapply R_trans; [eapply Hm, Hrun|eapply Hh, H].
Qed.

Lemma preserves_call (o : Op) : preserves R (call env o).
Proof.
  intros w out w'. unfold call.
  destruct (fault env o); intros [= <- <-]; apply R_call.
Qed.

Lemma preserves_logger (l : Level) (msg : string) : preserves R (logger l msg).
Proof. intros w out w' [= <- <-]. apply R_log. Qed.

Lemma preserves_gets {A} (f : World -> A) : preserves R (gets f).
Proof. intros w out w' [= <- <-]. apply R_refl. Qed.

Lemma preserves_findUnique (o : Op) (fileId : string) :
  preserves R (findUnique env o fileId).
Proof.
  unfold findUnique. apply preserves_bind; [apply preserves_call|].
  intros _. apply preserves_gets.
Qed.

Lemma preserves_findFirst (o : Op) (where_ : File -> bool) :
  preserves R (findFirst env o where_).
Proof.
  unfold findFirst. apply preserves_bind; [apply preserves_call|].
  intros _. apply preserves_gets.
Qed.

Lemma preserves_getObject (o : Op) (key : string) :
  preserves R (getObject env o key).
Proof.
  unfold getObject. apply preserves_bind; [apply preserves_call|]. intros _.
  apply preserves_bind; [apply preserves_gets|].
  intros [r|]; [apply preserves_ret|apply preserves_throw].
Qed.

End PreservesFacts.

Ltac pbind := apply preserves_bind; [assumption| |intros ?].
Ltac pcatch := apply preserves_tryCatch; [assumption| |intros ?].
Ltac patom :=
  first [ now apply preserves_ret | now apply preserves_throw
        | now apply preserves_call | now apply preserves_logger
        | now apply preserves_gets | now apply preserves_findUnique
        | now apply preserves_findFirst | now apply preserves_getObject ].

Section JobPreserves.
Import Frame IngestionWorker.
Context (env : Env) (fileId : string) (rec : File) (R : World -> World -> Prop).
Hypothesis R_refl : forall w, R w w.
Hypothesis R_trans : forall w1 w2 w3, R w1 w2 -> R w2 w3 -> R w1 w3.
Hypothesis R_call : forall o w, R w (add_call o w).
Hypothesis R_log : forall l msg w, R w (add_log l msg w).
Hypothesis R_update : forall w f g,
  files w !! fileId = Some f -> (forall x, sameIdentity x (g x)) ->
  R w (set_files (insert fileId (g f)) w).
Hypothesis R_delete : forall w f,
  files w !! fileId = Some f ->
  R w (set_documents
         (List.filter (fun d => negb (String.eqb (doc_fileId d) fileId)))
         (set_files (delete fileId) w)).
Hypothesis R_insert : forall w f c,
  files w !! fileId = Some f ->
  R w (set_documents
         (fun ds => ds ++ [chunkRow env (userId rec) fileId (originalName rec) c]) w).
Hypothesis R_deleteObject : forall w, R w (set_bucket (delete (fileKey rec)) w).

Lemma sameIdentity_with_status (s : FileStatus) (x : File) :
  sameIdentity x (with_status s x).
Proof. now repeat split. Qed.

Lemma sameIdentity_with_hash (h : string) (x : File) :
  sameIdentity x (with_hash h x).
Proof. now repeat split. Qed.

Lemma preserves_fileUpdate (o : Op) (g : File -> File) :
  (forall x, sameIdentity x (g x)) -> preserves R (fileUpdate env o fileId g).
Proof.
  intros Hg w out w'. unfold fileUpdate. run.
  destruct (fault env o); [intros [= <- <-]; apply R_call|].
  change (files (add_call o w)) with (files w).
  destruct (files w !! fileId) as [f|] eqn:Hrow; intros [= <- <-].
  - eapply R_trans; [apply (R_call o)|]. now apply R_update.
  - apply R_call.
Qed.

Lemma preserves_fileDelete (o : Op) : preserves R (fileDelete env o fileId).
Proof.
  intros w out w'. unfold fileDelete. run.
  destruct (fault env o); [intros [= <- <-]; apply R_call|].
  change (files (add_call o w)) with (files w).
  destruct (files w !! fileId) as [f|] eqn:Hrow; intros [= <- <-].
  - eapply R_trans; [apply (R_call o)|].
    apply (R_delete (add_call o w) f Hrow).
  - apply R_call.
Qed.

Lemma preserves_deleteObject (o : Op) :
  preserves R (deleteObject env o (fileKey rec)).
Proof.
  intros w out w'. unfold deleteObject. run.
  destruct (fault env o); intros [= <- <-]; [apply R_call|].
  eapply R_trans; [apply (R_call o)|]. apply R_deleteObject.
Qed.

Lemma preserves_insertDocument (o : Op) (c : Chunk) :
  preserves R (insertDocument env o
                 (chunkRow env (userId rec) fileId (originalName rec) c)).
Proof.
  intros w out w'. unfold insertDocument. run.
  destruct (fault env o); [intros [= <- <-]; apply R_call|].
  change (files (add_call o w)) with (files w).
  destruct (files w !! fileId) as [f|] eqn:Hrow; intros [= <- <-].
  - eapply R_trans; [apply (R_call o)|].
    apply (R_insert (add_call o w) f c Hrow).
  - apply R_call.
Qed.

Lemma preserves_embedAndSave (i : nat) (chunks : list Chunk) :
  preserves R (embedAndSave env (userId rec) fileId (originalName rec) i chunks).
Proof.
  revert i. induction chunks as [|c chunks IH]; intros i; simpl.
  - now apply preserves_ret.
  - pbind; [patom|]. pbind; [|apply IH].
    apply (preserves_insertDocument (OpInsertChunk i) c).
Qed.

Lemma preserves_parseText (mimeType : string) (byteArray : Bytes) :
  preserves R (parseText env mimeType byteArray).
Proof.
  unfold parseText.
  destruct (String.eqb mimeType "application/pdf").
  - pbind; [patom|]. pbind; patom.
  - destruct (String.prefix "image/" mimeType).
    + pbind; patom.
    + patom.
Qed.

Lemma preserves_processJob_catch (jobId : string) (error : Err) :
  preserves R (processJob_catch env jobId fileId error).
Proof.
  unfold processJob_catch.
  pbind; [patom|]. pbind; [|patom]. pcatch; [|patom].
  apply preserves_fileUpdate, sameIdentity_with_status.
Qed.

Ltac pjob :=
  repeat first
    [ patom
    | apply preserves_fileUpdate; intros ?; now repeat split
    | apply preserves_fileDelete
    | apply preserves_deleteObject
    | apply preserves_embedAndSave
    | apply preserves_parseText
    | pbind
    | pcatch
    | match goal with
      | |- preserves _ (match ?x with _ => _ end) => destruct x
      | |- preserves _ (if ?b then _ else _) => destruct b
      end ].

(** The [try] block, once it has read the row [rec] of the file. *)
Lemma preserves_processJob_try (w w1 : World) (out : Outcome unit) :
  files w !! fileId = Some rec ->
  processJob_try env fileId w = (out, w1) -> R w w1.
Proof.
  intros Hrow. unfold processJob_try. rewrite bind_run.
  unfold findUnique at 1. rewrite bind_run. unfold call at 1.
  destruct (fault env OpFindUnique); [intros [= <- <-]; apply R_call|].
  unfold gets at 1. change (files (add_call OpFindUnique w)) with (files w).
  rewrite Hrow. cbv zeta. intros H.
  eapply R_trans; [apply (R_call OpFindUnique)|].
  assert (Hbody : forall m : M unit,
            preserves R m -> m (add_call OpFindUnique w) = (out, w1) ->
            R (add_call OpFindUnique w) w1) by (intros m Hm; apply Hm).
  eapply Hbody; [|exact H]. pjob.
Qed.

Lemma preserves_processJob (jobId : string) (w w1 : World) (out : Outcome unit) :
  files w !! fileId = Some rec ->
  processJob env jobId fileId w = (out, w1) -> R w w1.
Proof.
  intros Hrow. unfold processJob. rewrite bind_run. unfold logger at 1, modify at 1.
  unfold tryCatch.
  destruct (processJob_try env fileId _) as [[[]|e] w0] eqn:Htry.
  - intros [= <- <-]. eapply R_trans; [apply R_log|].
    eapply preserves_processJob_try; [|exact Htry]. exact Hrow.
  - intros Hcatch. eapply R_trans; [apply R_log|].
    eapply R_trans.
    + eapply preserves_processJob_try; [|exact Htry]. exact Hrow.
    + eapply preserves_processJob_catch, Hcatch.
Qed.

End JobPreserves.

Section JobFrameFacts.
Import Frame IngestionWorker.

Lemma sameIdentity_refl (f : File) : sameIdentity f f.
Proof. now repeat split. Qed.

Lemma sameIdentity_trans (f1 f2 f3 : File) :
  sameIdentity f1 f2 -> sameIdentity f2 f3 -> sameIdentity f1 f3.
Proof.
  intros (?&?&?&?&?&?) (?&?&?&?&?&?). repeat split; congruence.
Qed.

Lemma jobFrame_sameTables (fileId key : string) (w w' : World) :
  sameTables w w' -> jobFrame fileId key w w'.
Proof.
  intros (Hf & Hd & Hb). unfold jobFrame, otherDocuments.
  rewrite Hf, Hd, Hb. repeat split; auto.
  destruct (files w !! fileId) as [f|]; [|reflexivity].
  right. exists f. split; [reflexivity|apply sameIdentity_refl].
Qed.

Lemma jobFrame_trans (fileId key : string) (w1 w2 w3 : World) :
  jobFrame fileId key w1 w2 -> jobFrame fileId key w2 w3 ->
  jobFrame fileId key w1 w3.
Proof.
  intros (Hf & Hb & Hn & Hd & Hr) (Hf' & Hb' & Hn' & Hd' & Hr').
  unfold jobFrame. split; [|split; [|split; [|split]]].
  - intros k Hk. now rewrite Hf', Hf.
  - intros k Hk. now rewrite Hb', Hb.
  - intros k. destruct (Hn' k) as [H|H]; [|now right].
    rewrite H. apply Hn.
  - now rewrite Hd', Hd.
  - destruct (files w1 !! fileId) as [f1|].
    + destruct Hr as [Hr|(f2 & Hr & Hid)].
      * rewrite Hr in Hr'. now left.
      * rewrite Hr in Hr'. destruct Hr' as [Hr'|(f3 & Hr' & Hid')]; [now left|].
        right. exists f3. split; [exact Hr'|].
        eapply sameIdentity_trans; eassumption.
    + now rewrite Hr in Hr'.
Qed.

Lemma filter_other_idem (fileId : string) (ds : list Document) :
  List.filter (fun d => negb (String.eqb (doc_fileId d) fileId))
    (List.filter (fun d => negb (String.eqb (doc_fileId d) fileId)) ds)
  = List.filter (fun d => negb (String.eqb (doc_fileId d) fileId)) ds.
Proof.
  induction ds as [|d ds IH]; simpl; [reflexivity|].
  destruct (negb (String.eqb (doc_fileId d) fileId)) eqn:Hd; simpl;
    rewrite ?Hd, IH; reflexivity.
Qed.

(** The frame of a job: for every run, the other rows, the other objects
    and the chunks of the other files are as before. *)
Lemma processJob_jobFrame (env : Env) (jobId fileId : string) (rec : File)
    (w w' : World) (out : Outcome unit) :
  files w !! fileId = Some rec ->
  processJob env jobId fileId w = (out, w') ->
  jobFrame fileId (fileKey rec) w w'.
Proof.
  apply (preserves_processJob env fileId rec (jobFrame fileId (fileKey rec))).
  - intros w0. apply jobFrame_sameTables. now repeat split.
  - apply jobFrame_trans.
  - intros o w0. apply jobFrame_sameTables. now repeat split.
  - intros l msg w0. apply jobFrame_sameTables. now repeat split.
  - intros w0 f g Hrow Hg. unfold jobFrame, otherDocuments. simpl.
    split; [|split; [|split; [|split]]]; auto.
    + intros k Hk. now rewrite lookup_insert_ne.
    + rewrite Hrow. right. exists (g f). split; [apply lookup_insert_eq|apply Hg].
  - intros w0 f Hrow. unfold jobFrame, otherDocuments. simpl.
    split; [|split; [|split; [|split]]]; auto.
    + intros k Hk. now rewrite lookup_delete_ne.
    + apply filter_other_idem.
    + rewrite Hrow. left. apply lookup_delete_eq.
  - intros w0 f c Hrow. unfold jobFrame, otherDocuments. simpl.
    split; [|split; [|split; [|split]]]; auto.
    + rewrite List.filter_app. simpl. rewrite String.eqb_refl. simpl.
      apply app_nil_r.
    + rewrite Hrow. right. exists f. split; [reflexivity|apply sameIdentity_refl].
  - intros w0. unfold jobFrame, otherDocuments. simpl.
    split; [|split; [|split; [|split]]]; auto.
    + intros k Hk. now rewrite lookup_delete_ne.
    + intros k. destruct (decide (k = fileKey rec)) as [->|Hk].
      * right. apply lookup_delete_eq.
      * left. now rewrite lookup_delete_ne.
    + destruct (files w0 !! fileId) as [f|] eqn:Hrow; [|reflexivity].
      right. exists f. split; [reflexivity|apply sameIdentity_refl].
Qed.

End JobFrameFacts.

Section JobInvariantFacts.
Import Frame IngestionWorker.

Lemma wellFormed_sameTables (w w' : World) :
  sameTables w w' -> wellFormed w -> wellFormed w'.
Proof.
  intros (Hf & Hd & _). unfold wellFormed, keyed, owned. now rewrite Hf, Hd.
Qed.

(** A job for a file whose row is gone leaves the tables and the objects as
    they are. *)
Lemma processJob_missing_row_tables (env : Env) (jobId fileId : string)
    (w : World) :
  files w !! fileId = None ->
  sameTables w (snd (processJob env jobId fileId w)).
Proof.
  intros Hrow. unfold processJob, processJob_try, processJob_catch,
    findUnique, fileUpdate. run.
  destruct (fault env OpFindUnique); simpl.
  - destruct (fault env OpMarkFailed); simpl; [now repeat split|].
    rewrite Hrow. now repeat split.
  - rewrite Hrow. simpl. destruct (fault env OpMarkFailed); simpl; [now repeat split|].
    rewrite Hrow. now repeat split.
Qed.

Lemma jobInvariant_update (fileId : string) (rec f : File) (g : File -> File)
    (w : World) :
  files w !! fileId = Some f -> (forall x, sameIdentity x (g x)) ->
  jobInvariant fileId rec w ->
  jobInvariant fileId rec (set_files (insert fileId (g f)) w).
Proof.
  intros Hrow Hg ((Hkeyed & Howned) & Huser).
  destruct (Hg f) as (Hid & _ & _ & _ & Huid & _).
  split; [split|].
  - unfold keyed. simpl. apply map_Forall_insert_2; [|exact Hkeyed].
    rewrite Hid. exact (Hkeyed _ _ Hrow).
  - unfold owned in *. simpl. eapply List.Forall_impl; [|exact Howned].
    intros d (fd & Hfd & Hd). simpl.
    destruct (decide (doc_fileId d = fileId)) as [Heq|Hne].
    + rewrite Heq in *. rewrite lookup_insert_eq. exists (g f).
      split; [reflexivity|]. rewrite Huid. congruence.
    + rewrite lookup_insert_ne by congruence. now exists fd.
  - simpl. intros f'. rewrite lookup_insert_eq. intros [= <-].
    rewrite Huid. now apply Huser.
Qed.

Lemma jobInvariant_delete (fileId : string) (rec : File) (w : World) :
  jobInvariant fileId rec w ->
  jobInvariant fileId rec
    (set_documents
       (List.filter (fun d => negb (String.eqb (doc_fileId d) fileId)))
       (set_files (delete fileId) w)).
Proof.
  intros ((Hkeyed & Howned) & Huser). split; [split|].
  - unfold keyed. simpl. now apply map_Forall_delete.
  - unfold owned in *. simpl. apply List.Forall_forall. intros d Hd.
    apply filter_In in Hd as [Hd Hne].
    rewrite List.Forall_forall in Howned.
    destruct (Howned d Hd) as (fd & Hfd & Hown).
    apply negb_true_iff, String.eqb_neq in Hne.
    exists fd. split; [|exact Hown]. now rewrite lookup_delete_ne by congruence.
  - simpl. intros f. rewrite lookup_delete_eq. discriminate.
Qed.

Lemma jobInvariant_insert (env : Env) (fileId : string) (rec f : File)
    (c : Chunk) (w : World) :
  files w !! fileId = Some f ->
  jobInvariant fileId rec w ->
  jobInvariant fileId rec
    (set_documents
       (fun ds => ds ++ [chunkRow env (userId rec) fileId (originalName rec) c]) w).
Proof.
  intros Hrow ((Hkeyed & Howned) & Huser). split; [split|].
  - exact Hkeyed.
  - unfold owned in *. simpl. apply Forall_app. split; [exact Howned|].
    constructor; [|constructor]. simpl. exists f. split; [exact Hrow|].
    now apply Huser.
  - exact Huser.
Qed.

Lemma processJob_jobInvariant (env : Env) (jobId fileId : string) (rec : File)
    (w w' : World) (out : Outcome unit) :
  files w !! fileId = Some rec ->
  processJob env jobId fileId w = (out, w') ->
  jobInvariant fileId rec w -> jobInvariant fileId rec w'.
Proof.
  apply (preserves_processJob env fileId rec
           (fun w0 w1 => jobInvariant fileId rec w0 -> jobInvariant fileId rec w1)).
  - auto.
  - auto.
  - intros o w0 H. exact H.
  - intros l msg w0 H. exact H.
  - intros w0 f g Hrow Hg. exact (jobInvariant_update fileId rec f g w0 Hrow Hg).
  - intros w0 f _. apply jobInvariant_delete.
  - intros w0 f c Hrow. exact (jobInvariant_insert env fileId rec f c w0 Hrow).
  - intros w0 H. exact H.
Qed.

End JobInvariantFacts.

(** ** The paths of the ingestion job *)

Section IngestionPaths.
Import Frame IngestionWorker IngestionSteps.
Context (env : Env).

Lemma processJob_try_afterDownload (fileId : string) (rec : File)
    (byteArray : Bytes) (w : World) :
  files w !! fileId = Some rec ->
  bucket w !! fileKey rec = Some (mkS3Object (Some byteArray)) ->
  fault env OpFindUnique = None -> fault env OpMarkProcessing = None ->
  fault env OpGetObject = None -> fault env OpReadBody = None ->
  processJob_try env fileId w
  = afterDownload env fileId rec byteArray (downloaded fileId rec w).
Proof.
  intros Hrow Hobj H1 H2 H3 H4.
  unfold processJob_try, afterDownload, chunkAndSave, downloaded,
    findUnique, fileUpdate, getObject, findFirst, deleteObject.
  run. rewrite H1. simpl. rewrite Hrow. simpl. rewrite H2. simpl.
  rewrite Hrow. simpl. rewrite H3. simpl. rewrite Hobj. simpl. rewrite H4.
  simpl. reflexivity.
Qed.

Lemma filter_none {A} (p : A -> bool) (l : list A) :
  Forall (fun x => p x = false) l -> List.filter p l = [].
Proof.
  induction 1 as [|x l Hx _ IH]; simpl; [reflexivity|]. now rewrite Hx.
Qed.

Lemma findFirst_none (o : Op) (p : File -> bool) (w : World) :
  fault env o = None ->
  map_Forall (fun _ f => p f = false) (files w) ->
  findFirst env o p w = (Ok None, add_call o w).
Proof.
  intros Ho Hall. unfold findFirst. run. rewrite Ho. simpl.
  rewrite filter_none; [reflexivity|].
  apply List.Forall_forall. intros f Hf.
  apply list_elem_of_In, list_elem_of_fmap in Hf as ((k & f') & -> & Hin).
  apply elem_of_map_to_list in Hin. exact (Hall _ _ Hin).
Qed.

Lemma noDuplicate_processing (fileId : string) (rec : File) (h : string)
    (w : World) :
  noDuplicate fileId rec h w ->
  map_Forall (fun _ f => duplicateOf (userId rec) h fileId f = false)
             (<[fileId := with_status PROCESSING rec]> (files w)).
Proof.
  intros Hno. apply map_Forall_insert_2; [|exact Hno].
  unfold duplicateOf. simpl. now rewrite andb_false_r.
Qed.

Lemma parseText_run (mimeType : string) (byteArray : Bytes) (w : World) :
  fault env OpPdfProxy = None -> fault env OpPdfText = None ->
  fault env OpImageText = None ->
  exists w',
    parseText env mimeType byteArray w
    = (Ok (extractedText env mimeType byteArray), w') /\ sameTables w w'.
Proof.
  intros H1 H2 H3. unfold parseText, extractedText.
  destruct (String.eqb mimeType "application/pdf").
  - run. rewrite H1. simpl. rewrite H2. simpl.
    eexists. split; [reflexivity|now repeat split].
  - destruct (String.prefix "image/" mimeType).
    + run. rewrite H3. simpl. eexists. split; [reflexivity|now repeat split].
    + run. eexists. split; [reflexivity|now repeat split].
Qed.

Lemma embedAndSave_run (userId fileId originalName : string) (chunks : list Chunk)
    (i : nat) (w : World) :
  allAnswer env -> is_Some (files w !! fileId) ->
  exists w',
    embedAndSave env userId fileId originalName i chunks w = (Ok tt, w') /\
    files w' = files w /\ bucket w' = bucket w /\
    documents w'
    = documents w ++ List.map (chunkRow env userId fileId originalName) chunks.
Proof.
  intros Hall. revert i w. induction chunks as [|c chunks IH]; intros i w [f Hrow].
  - exists w. simpl. rewrite app_nil_r. now repeat split.
  - simpl. unfold insertDocument. run. rewrite !Hall. simpl. rewrite Hrow. simpl.
    match goal with
    | |- context [embedAndSave _ _ _ _ _ _ ?W] =>
        destruct (IH (S i) W) as (w' & Hrun & Hf & Hb & Hd)
    end.
    { simpl. eauto. }
    exists w'. rewrite Hrun. split; [reflexivity|]. simpl in *.
    split; [exact Hf|]. split; [exact Hb|].
    rewrite Hd. now rewrite <- app_assoc.
Qed.

(** What a failing embedding leaves behind: the rows of the chunks before
    it. *)
Lemma embedAndSave_fail (userId fileId originalName : string)
    (chunks : list Chunk) (j : nat) (e : Err) (i : nat) (w : World) :
  (j < length chunks)%nat ->
  fault env (OpEmbedChunk (i + j)) = Some e ->
  (forall o, o <> OpEmbedChunk (i + j) -> fault env o = None) ->
  is_Some (files w !! fileId) ->
  exists w',
    embedAndSave env userId fileId originalName i chunks w = (Throw e, w') /\
    files w' = files w /\ bucket w' = bucket w /\
    documents w'
    = documents w ++ List.map (chunkRow env userId fileId originalName)
                              (firstn j chunks).
Proof.
  revert j i w. induction chunks as [|c chunks IH]; intros j i w Hj He Hno [f Hrow].
  { simpl in Hj. lia. }
  destruct j as [|j].
  - replace (i + 0)%nat with i in * by lia. simpl. run. rewrite He. simpl.
    eexists. split; [reflexivity|]. simpl. rewrite app_nil_r. now repeat split.
  - simpl. unfold insertDocument. run.
    rewrite (Hno (OpEmbedChunk i)) by (intros [= H]; lia). simpl.
    rewrite (Hno (OpInsertChunk i)) by discriminate. simpl.
    rewrite Hrow. simpl.
    match goal with
    | |- context [embedAndSave _ _ _ _ _ _ ?W] =>
        destruct (IH j (S i) W) as (w' & Hrun & Hf & Hb & Hd)
    end.
    { simpl in Hj. lia. }
    { now replace (S i + j)%nat with (i + S j)%nat by lia. }
    { now replace (S i + j)%nat with (i + S j)%nat by lia. }
    { simpl. eauto. }
    exists w'. rewrite Hrun. split; [reflexivity|]. simpl in *.
    split; [exact Hf|]. split; [exact Hb|].
    rewrite Hd. now rewrite <- app_assoc.
Qed.

(** From the duplicate check to the split, for a file that is no duplicate
    and whose text is not blank. *)
Lemma afterDownload_chunking (fileId : string) (rec r0 : File)
    (byteArray : Bytes) (w0 : World) :
  let h := sha256hex env byteArray in
  let text := extractedText env (mimeType rec) byteArray in
  fault env OpFindDuplicate = None -> fault env OpStoreHash = None ->
  fault env OpPdfProxy = None -> fault env OpPdfText = None ->
  fault env OpImageText = None -> fault env OpSplit = None ->
  files w0 !! fileId = Some r0 ->
  map_Forall (fun _ f => duplicateOf (userId rec) h fileId f = false) (files w0) ->
  trimIsEmpty text = false ->
  exists w1,
    afterDownload env fileId rec byteArray w0
    = bind (embedAndSave env (userId rec) fileId (originalName rec) 0
                         (createDocuments env text))
           (fun _ => bind (fileUpdate env OpMarkCompleted fileId
                                      (with_status COMPLETED))
                          (fun _ => logger Info ("Successfully ingested file: "
                                                 +:+ fileId))) w1 /\
    files w1 = <[fileId := with_hash h r0]> (files w0) /\
    documents w1 = documents w0 /\ bucket w1 = bucket w0.
Proof.
  intros h text H5 H6 H7 H8 H9 H10 Hrow Hno Hblank. subst h text.
  unfold afterDownload, chunkAndSave. cbv zeta. rewrite bind_run.
  rewrite (findFirst_none _ _ _ H5 Hno).
  rewrite bind_run. unfold fileUpdate at 1. run. rewrite H6. simpl.
  rewrite Hrow. simpl.
  match goal with
  | |- context [parseText env (mimeType rec) byteArray ?W] =>
      destruct (parseText_run (mimeType rec) byteArray W H7 H8 H9)
        as (w' & Hrun & Hf & Hd & Hb)
  end.
  rewrite Hrun. rewrite Hblank. rewrite H10. simpl.
  eexists. split; [reflexivity|]. simpl in *. now repeat split.
Qed.

(** From the duplicate check on, when the extracted text is blank. *)
Lemma afterDownload_blank (fileId : string) (rec r0 : File)
    (byteArray : Bytes) (w0 : World) :
  let h := sha256hex env byteArray in
  allAnswer env ->
  files w0 !! fileId = Some r0 ->
  map_Forall (fun _ f => duplicateOf (userId rec) h fileId f = false) (files w0) ->
  trimIsEmpty (extractedText env (mimeType rec) byteArray) = true ->
  exists w1,
    afterDownload env fileId rec byteArray w0 = (Ok tt, w1) /\
    files w1 = <[fileId := with_status FAILED (with_hash h r0)]> (files w0) /\
    documents w1 = documents w0 /\ bucket w1 = bucket w0.
Proof.
  intros h Hall Hrow Hno Hblank. subst h.
  unfold afterDownload. cbv zeta. rewrite bind_run.
  rewrite (findFirst_none _ _ _ (Hall _) Hno).
  rewrite bind_run. unfold fileUpdate at 1. run. rewrite (Hall OpStoreHash). simpl.
  rewrite Hrow. simpl.
  match goal with
  | |- context [parseText env (mimeType rec) byteArray ?W] =>
      destruct (parseText_run (mimeType rec) byteArray W (Hall _) (Hall _) (Hall _))
        as (w' & Hrun & Hf & Hd & Hb)
  end.
  rewrite Hrun, Hblank. unfold fileUpdate. run. rewrite (Hall OpMarkEmpty). simpl.
  rewrite Hf. simpl. rewrite lookup_insert_eq.
  eexists. split; [reflexivity|]. simpl in *.
  rewrite Hf, Hd, Hb. simpl. rewrite insert_insert_eq. now repeat split.
Qed.

(** From the duplicate check on, when an ingested file of the owner has the
    same hash. *)
Lemma afterDownload_duplicate (fileId : string) (rec r0 dup : File) (k : string)
    (byteArray : Bytes) (w0 : World) :
  let h := sha256hex env byteArray in
  allAnswer env ->
  files w0 !! fileId = Some r0 ->
  files w0 !! k = Some dup ->
  duplicateOf (userId rec) h fileId dup = true ->
  exists w1,
    afterDownload env fileId rec byteArray w0 = (Ok tt, w1) /\
    files w1 = <[fileId := with_hash h (with_status DUPLICATE r0)]> (files w0) /\
    documents w1 = documents w0 /\
    bucket w1 = delete (fileKey rec) (bucket w0).
Proof.
  intros h Hall Hrow Hk Hdup. subst h.
  destruct (head_filter_found
              (duplicateOf (userId rec) (sha256hex env byteArray) fileId)
              ((map_to_list (files w0)).*2) dup) as (d & Hd & _).
  { apply list_elem_of_In, list_elem_of_fmap. exists (k, dup).
    split; [reflexivity|]. now apply elem_of_map_to_list. }
  { exact Hdup. }
  unfold afterDownload, findFirst, deleteObject, fileUpdate. run.
  rewrite (Hall OpFindDuplicate). simpl. rewrite Hd.
  rewrite (Hall OpDeleteObject). simpl. rewrite (Hall OpMarkDuplicate). simpl.
  rewrite Hrow. eexists. split; [reflexivity|]. now repeat split.
Qed.

End IngestionPaths.

Section IngestionOutcomes.
Import Frame IngestionWorker IngestionSteps.
Context (env : Env).

(** The run of a job on a file that can be ingested. *)
Lemma processJob_ingests_run (jobId fileId : string) (rec : File)
    (byteArray : Bytes) (w : World) :
  allAnswer env ->
  files w !! fileId = Some rec ->
  bucket w !! fileKey rec = Some (mkS3Object (Some byteArray)) ->
  noDuplicate fileId rec (sha256hex env byteArray) w ->
  trimIsEmpty (extractedText env (mimeType rec) byteArray) = false ->
  exists w',
    processJob env jobId fileId w = (Ok tt, w') /\
    files w' = <[fileId := with_status COMPLETED
                             (with_hash (sha256hex env byteArray) rec)]> (files w) /\
    documents w'
    = documents w ++
      List.map (chunkRow env (userId rec) fileId (originalName rec))
               (createDocuments env (extractedText env (mimeType rec) byteArray)) /\
    bucket w' = bucket w.
Proof.
  intros Hall Hrow Hobj Hno Hblank.
  destruct (afterDownload_chunking env fileId rec (with_status PROCESSING rec)
              byteArray (downloaded fileId rec (started jobId fileId w)))
    as (w1 & Hrun & Hf & Hd & Hb); try apply Hall.
  { apply lookup_insert_eq. }
  { now apply noDuplicate_processing. }
  { exact Hblank. }
  destruct (embedAndSave_run env (userId rec) fileId (originalName rec)
              (createDocuments env (extractedText env (mimeType rec) byteArray))
              0 w1 Hall) as (w2 & Hrun2 & Hf2 & Hb2 & Hd2).
  { rewrite Hf, lookup_insert_eq. eauto. }
  rewrite processJob_unfold. unfold tryCatch.
  rewrite (processJob_try_afterDownload env fileId rec byteArray
             (started jobId fileId w) Hrow Hobj) by apply Hall.
  rewrite Hrun, bind_run, Hrun2. unfold fileUpdate. run.
  rewrite (Hall OpMarkCompleted). simpl. rewrite Hf2, Hf, lookup_insert_eq.
  eexists. split; [reflexivity|]. simpl in *.
  rewrite Hf2, Hf, Hd2, Hd, Hb2, Hb. simpl.
  rewrite !insert_insert_eq. now repeat split.
Qed.

(** X1: when every collaborator answers, the object is there, no other
    ingested file of the owner has its hash and its text is not blank, the
    job ends without an error, the row gets the hash and the status
    [COMPLETED], one chunk row per chunk is appended in the order of the
    chunks, with the owner, the file and the display name of the file, and
    the objects stay as they are. *)
Theorem processJob_ingests (jobId fileId : string) (rec : File)
    (byteArray : Bytes) (w : World) :
  allAnswer env ->
  files w !! fileId = Some rec ->
  bucket w !! fileKey rec = Some (mkS3Object (Some byteArray)) ->
  noDuplicate fileId rec (sha256hex env byteArray) w ->
  trimIsEmpty (extractedText env (mimeType rec) byteArray) = false ->
  exists w',
    processJob env jobId fileId w = (Ok tt, w') /\
    files w' = <[fileId := with_status COMPLETED
                             (with_hash (sha256hex env byteArray) rec)]> (files w) /\
    documents w'
    = documents w ++
      List.map (chunkRow env (userId rec) fileId (originalName rec))
               (createDocuments env (extractedText env (mimeType rec) byteArray)) /\
    bucket w' = bucket w.
Proof. apply processJob_ingests_run. Qed.

(** X2: when the extracted text is blank, the job ends without an error,
    stores the hash and sets the status [FAILED]; it writes no chunk row and
    leaves the object in the store. *)
Theorem processJob_blank_text (jobId fileId : string) (rec : File)
    (byteArray : Bytes) (w : World) :
  allAnswer env ->
  files w !! fileId = Some rec ->
  bucket w !! fileKey rec = Some (mkS3Object (Some byteArray)) ->
  noDuplicate fileId rec (sha256hex env byteArray) w ->
  trimIsEmpty (extractedText env (mimeType rec) byteArray) = true ->
  exists w',
    processJob env jobId fileId w = (Ok tt, w') /\
    files w' = <[fileId := with_status FAILED
                             (with_hash (sha256hex env byteArray) rec)]> (files w) /\
    documents w' = documents w /\ bucket w' = bucket w.
Proof.
  intros Hall Hrow Hobj Hno Hblank.
  destruct (afterDownload_blank env fileId rec (with_status PROCESSING rec)
              byteArray (downloaded fileId rec (started jobId fileId w)) Hall)
    as (w1 & Hrun & Hf & Hd & Hb).
  { apply lookup_insert_eq. }
  { now apply noDuplicate_processing. }
  { exact Hblank. }
  rewrite processJob_unfold. unfold tryCatch.
  rewrite (processJob_try_afterDownload env fileId rec byteArray
             (started jobId fileId w) Hrow Hobj) by apply Hall.
  rewrite Hrun. exists w1. split; [reflexivity|]. simpl in *.
  rewrite Hf, Hd, Hb. rewrite insert_insert_eq. now repeat split.
Qed.

(** X4: when the embedding of the chunk at position [j] fails and every
    other call goes through, the job fails with that error and the file
    ends as [FAILED] with its hash stored, but the rows of the [j] chunks
    before it stay in the table: nothing is rolled back. *)
Theorem processJob_partial_failure (jobId fileId : string) (rec : File)
    (byteArray : Bytes) (j : nat) (e : Err) (w : World) :
  let text := extractedText env (mimeType rec) byteArray in
  (j < length (createDocuments env text))%nat ->
  fault env (OpEmbedChunk j) = Some e ->
  (forall o, o <> OpEmbedChunk j -> fault env o = None) ->
  files w !! fileId = Some rec ->
  bucket w !! fileKey rec = Some (mkS3Object (Some byteArray)) ->
  noDuplicate fileId rec (sha256hex env byteArray) w ->
  trimIsEmpty text = false ->
  exists w',
    processJob env jobId fileId w = (Throw e, w') /\
    files w' = <[fileId := with_status FAILED
                             (with_hash (sha256hex env byteArray) rec)]> (files w) /\
    documents w'
    = documents w ++
      List.map (chunkRow env (userId rec) fileId (originalName rec))
               (firstn j (createDocuments env text)) /\
    bucket w' = bucket w.
Proof.
  intros text Hj He Hno' Hrow Hobj Hno Hblank. subst text.
  assert (Hq : forall o, (forall i, o <> OpEmbedChunk i) -> fault env o = None).
  { intros o Ho. apply Hno', Ho. }
  destruct (afterDownload_chunking env fileId rec (with_status PROCESSING rec)
              byteArray (downloaded fileId rec (started jobId fileId w)))
    as (w1 & Hrun & Hf & Hd & Hb); try (apply Hq; discriminate).
  { apply lookup_insert_eq. }
  { now apply noDuplicate_processing. }
  { exact Hblank. }
  destruct (embedAndSave_fail env (userId rec) fileId (originalName rec)
              (createDocuments env (extractedText env (mimeType rec) byteArray))
              j e 0 w1 Hj He Hno') as (w2 & Hrun2 & Hf2 & Hb2 & Hd2).
  { rewrite Hf, lookup_insert_eq. eauto. }
  rewrite processJob_unfold. unfold tryCatch.
  rewrite (processJob_try_afterDownload env fileId rec byteArray
             (started jobId fileId w) Hrow Hobj) by (apply Hq; discriminate).
  rewrite Hrun, bind_run, Hrun2.
  unfold processJob_catch, fileUpdate. run.
  rewrite (Hq OpMarkFailed) by discriminate. simpl.
  rewrite Hf2, Hf, lookup_insert_eq.
  eexists. split; [reflexivity|]. simpl in *.
  rewrite Hf2, Hf, Hd2, Hd, Hb2, Hb. simpl.
  rewrite !insert_insert_eq. now repeat split.
Qed.

(** X3: when the object of the file cannot be fetched, the error decides:
    for "NoSuchKey" or a 404 the job deletes the reservation, with the
    chunks of the file, and ends without an error; any other error fails
    the job, which marks the file [FAILED] and keeps the row. *)
Theorem processJob_missing_object (jobId fileId : string) (rec : File)
    (e : Err) (w : World) :
  files w !! fileId = Some rec ->
  fault env OpFindUnique = None -> fault env OpMarkProcessing = None ->
  fault env OpGetObject = Some e \/
    (fault env OpGetObject = None /\ bucket w !! fileKey rec = None /\
     e = noSuchKey) ->
  (isMissingObject e = true -> fault env OpDeleteReservation = None ->
   exists w',
     processJob env jobId fileId w = (Ok tt, w') /\
     files w' = delete fileId (files w) /\
     documents w' = otherDocuments fileId w /\
     bucket w' = bucket w) /\
  (isMissingObject e = false ->
   exists w',
     processJob env jobId fileId w = (Throw e, w') /\
     documents w' = documents w /\ bucket w' = bucket w /\
     (fault env OpMarkFailed = None ->
      files w' = <[fileId := with_status FAILED rec]> (files w))).
Proof.
  intros Hrow H1 H2 Hget.
  assert (Hrun : forall w0,
    bucket w0 = bucket w ->
    getObject env OpGetObject (fileKey rec) w0 = (Throw e, add_call OpGetObject w0)).
  { intros w0 Hb. unfold getObject. run.
    destruct Hget as [Hget|(Hget & Hnone & ->)]; rewrite Hget; [reflexivity|].
    simpl. rewrite Hb, Hnone. reflexivity. }
  rewrite processJob_unfold. unfold tryCatch at 1.
  unfold processJob_try, findUnique, fileUpdate, fileDelete.
  rewrite bind_run. run. rewrite H1. simpl. rewrite Hrow. simpl.
  rewrite H2. simpl. rewrite Hrow. simpl.
  match goal with
  | |- context [getObject env OpGetObject (fileKey rec) ?W] =>
      rewrite (Hrun W eq_refl)
  end.
  split.
  - intros Hmiss Hdel. rewrite Hmiss. simpl. rewrite Hdel. simpl.
    rewrite lookup_insert_eq. eexists. split; [reflexivity|]. simpl.
    split; [apply delete_insert_eq|]. now split.
  - intros Hmiss. rewrite Hmiss. simpl.
    match goal with
    | |- context [processJob_catch env jobId fileId e ?W] =>
        destruct (processJob_catch_run env jobId fileId e W)
          as (w2 & Hcatch & Hdocs & Hbucket & Hmark & _)
    end.
    exists w2. split; [exact Hcatch|]. simpl in *.
    split; [exact Hdocs|]. split; [exact Hbucket|].
    intros Hf. rewrite (Hmark Hf (with_status PROCESSING rec)).
    + now rewrite insert_insert_eq.
    + apply lookup_insert_eq.
Qed.

End IngestionOutcomes.

Section IngestionInvariants.
Import Frame IngestionWorker IngestionSteps AgentService.
Context (env : Env).

(** X5: whatever a job for a file does and however it ends, the rows of the
    other files and the chunks of the other files are as before, no row
    appears, the row of the file is gone or differs in status and hash
    only, and the only object that can be gone is the one of the file. *)
Theorem processJob_touches_only_its_file (jobId fileId : string) (w : World) :
  let w' := snd (processJob env jobId fileId w) in
  (forall k, k <> fileId -> files w' !! k = files w !! k) /\
  otherDocuments fileId w' = otherDocuments fileId w /\
  (forall k, bucket w' !! k = bucket w !! k \/
             (bucket w' !! k = None /\
              exists f, files w !! fileId = Some f /\ fileKey f = k)) /\
  (forall f, files w !! fileId = Some f ->
             files w' !! fileId = None \/
             exists f', files w' !! fileId = Some f' /\ sameIdentity f f') /\
  (files w !! fileId = None -> files w' !! fileId = None).
Proof.
  intros w'. subst w'.
  destruct (processJob env jobId fileId w) as [out w'] eqn:Hrun. simpl.
  destruct (files w !! fileId) as [rec|] eqn:Hrow.
  - destruct (processJob_jobFrame env jobId fileId rec w w' out Hrow Hrun)
      as (Hf & Hb & Hn & Hd & Hr).
    rewrite Hrow in Hr.
    split; [exact Hf|]. split; [exact Hd|]. split; [|split].
    + intros k. destruct (decide (k = fileKey rec)) as [->|Hk].
      * destruct (Hn (fileKey rec)) as [H|H]; [now left|].
        right. split; [exact H|]. now exists rec.
      * left. now apply Hb.
    + intros f [= <-]. exact Hr.
    + discriminate.
  - pose proof (processJob_missing_row_tables env jobId fileId w Hrow) as Hsame.
    rewrite Hrun in Hsame. simpl in Hsame. destruct Hsame as (Hf & Hd & Hb).
    unfold otherDocuments. rewrite Hf, Hd, Hb.
    repeat split; auto; discriminate.
Qed.

(** X6: a job keeps the tables well formed: rows stay under their [id], and
    every chunk, the ones the job writes included, belongs to a file of the
    table and to the owner of that file. *)
Theorem processJob_keeps_wellFormed (jobId fileId : string) (w : World) :
  wellFormed w -> wellFormed (snd (processJob env jobId fileId w)).
Proof.
  intros Hwf.
  destruct (processJob env jobId fileId w) as [out w'] eqn:Hrun. simpl.
  destruct (files w !! fileId) as [rec|] eqn:Hrow.
  - apply (processJob_jobInvariant env jobId fileId rec w w' out Hrow Hrun).
    split; [exact Hwf|]. intros f. rewrite Hrow. now intros [= <-].
  - pose proof (processJob_missing_row_tables env jobId fileId w Hrow) as Hsame.
    rewrite Hrun in Hsame. eapply wellFormed_sameTables; eassumption.
Qed.

(** X7: on tables whose chunks belong to the owner of their file, every row
    the similarity query keeps comes with its file, and that file is owned
    by the caller or public. *)
Theorem retrieved_owner_or_public (userId : string) (q : Vec) (w : World) :
  owned w ->
  Forall (fun r => exists f,
            snd r = Some f /\ files w !! doc_fileId (fst r) = Some f /\
            (Store.userId f = userId \/ isPublic f = true))
         (retrieved env userId q w).
Proof.
  intros Howned. apply List.Forall_forall. intros r Hr.
  pose proof (retrieved_authorized env userId q w) as Hauth.
  rewrite List.Forall_forall in Hauth. specialize (Hauth r Hr).
  apply retrieved_from_joined in Hr as [Hj _].
  unfold joined in Hj. apply in_map_iff in Hj as (d & <- & Hd).
  unfold owned in Howned. rewrite List.Forall_forall in Howned.
  destruct (Howned d Hd) as (f & Hf & Hown). simpl in *.
  exists f. split; [exact Hf|]. split; [exact Hf|].
  destruct Hauth as [Ha|(f' & Hf' & _ & Hpub)].
  - left. simpl in Ha. congruence.
  - right. simpl in Hf'. congruence.
Qed.

(** X8: the job does not look at the status of the file, so a second job
    for a file that is already [COMPLETED] ingests it again: every chunk of
    the file is then in the table twice. *)
Theorem processJob_twice_doubles_chunks (jobId jobId' fileId : string) (rec : File)
    (byteArray : Bytes) (w : World) :
  allAnswer env ->
  keyed w ->
  files w !! fileId = Some rec ->
  bucket w !! fileKey rec = Some (mkS3Object (Some byteArray)) ->
  noDuplicate fileId rec (sha256hex env byteArray) w ->
  trimIsEmpty (extractedText env (mimeType rec) byteArray) = false ->
  let rows :=
    List.map (chunkRow env (Store.userId rec) fileId (originalName rec))
             (createDocuments env (extractedText env (mimeType rec) byteArray)) in
  exists w1 w2,
    processJob env jobId fileId w = (Ok tt, w1) /\
    processJob env jobId' fileId w1 = (Ok tt, w2) /\
    documents w2 = documents w ++ rows ++ rows /\
    files w2 = <[fileId := with_status COMPLETED
                             (with_hash (sha256hex env byteArray) rec)]> (files w).
Proof.
  intros Hall Hkeyed Hrow Hobj Hno Hblank rows. subst rows.
  destruct (processJob_ingests_run env jobId fileId rec byteArray w Hall Hrow Hobj Hno Hblank)
    as (w1 & Hrun1 & Hf1 & Hd1 & Hb1).
  set (rec1 := with_status COMPLETED (with_hash (sha256hex env byteArray) rec)).
  destruct (processJob_ingests_run env jobId' fileId rec1 byteArray w1 Hall)
    as (w2 & Hrun2 & Hf2 & Hd2 & Hb2).
  { rewrite Hf1. apply lookup_insert_eq. }
  { rewrite Hb1. exact Hobj. }
  { unfold noDuplicate. rewrite Hf1. apply map_Forall_insert_2; [|exact Hno].
    unfold duplicateOf. simpl. rewrite (Hkeyed _ _ Hrow), !String.eqb_refl.
    simpl. rewrite ?andb_false_r. reflexivity. }
  { exact Hblank. }
  exists w1, w2. split; [exact Hrun1|]. split; [exact Hrun2|].
  simpl in *. rewrite Hd2, Hd1, Hf2, Hf1. rewrite <- app_assoc.
  split; [reflexivity|]. now rewrite insert_insert_eq.
Qed.

End IngestionInvariants.

(** ** Reservations *)

Section ReservationFacts.
Import Frame UploadService UploadConfirm.
Context (env : Env).

(** The row that [generateSignedUrl] reserves. *)
Lemma generateSignedUrl_run (fileName fileType : string) (fileSize : Z)
    (isPublic : bool) (user : User) (w : World) :
  includes allowedFileTypes fileType = true ->
  (fileSize <= maxFileSize)%Z ->
  u_id user <> EmptyString ->
  fault env OpCreateFile = None ->
  files w !! newFileId env = None ->
  let key := "users/" +:+ u_id user +:+ "/" +:+ uuidv4 env +:+ "-" +:+
             sanitize fileName in
  let row := mkFile (newFileId env) key fileName None fileType PENDING
                    (u_id user) (finalIsPublic isPublic user) in
  exists w',
    generateSignedUrl env fileName fileType fileSize isPublic user w
    = (match fault env OpPresignPut with
       | Some e => Throw e
       | None => Ok (presignPut env key, key, newFileId env)
       end, w') /\
    files w' = <[newFileId env := row]> (files w) /\
    documents w' = documents w /\ bucket w' = bucket w.
Proof.
  intros Htype Hsize Hid Hcreate Hfresh key row.
  unfold generateSignedUrl. rewrite Htype. simpl.
  assert (Hs : (maxFileSize <? fileSize)%Z = false) by now apply Z.ltb_ge.
  rewrite Hs. apply String.eqb_neq in Hid. rewrite Hid.
  unfold fileCreate. run. rewrite Hcreate. simpl. rewrite Hfresh. simpl.
  destruct (fault env OpPresignPut); simpl;
    eexists; (split; [reflexivity|]); now repeat split.
Qed.

(** X9: a request for a type that is not allowed, for more than 2 MB or
    from a user without an identifier is rejected with status 400 before
    anything is called or written. *)
Theorem generateSignedUrl_rejects (fileName fileType : string) (fileSize : Z)
    (isPublic : bool) (user : User) (w : World) :
  includes allowedFileTypes fileType = false \/
  (maxFileSize < fileSize)%Z \/ u_id user = EmptyString ->
  exists msg,
    generateSignedUrl env fileName fileType fileSize isPublic user w
    = (Throw (ApiError 400 msg), w).
Proof.
  intros Hbad. unfold generateSignedUrl.
  destruct (includes allowedFileTypes fileType) eqn:Htype; simpl.
  2: { eexists. reflexivity. }
  destruct (maxFileSize <? fileSize)%Z eqn:Hsize.
  { eexists. reflexivity. }
  destruct (String.eqb (u_id user) EmptyString) eqn:Hid.
  { eexists. reflexivity. }
  exfalso. destruct Hbad as [H|[H|H]].
  - discriminate.
  - apply Z.ltb_ge in Hsize. lia.
  - apply String.eqb_neq in Hid. contradiction.
Qed.

(** X10: the reservation is written before the upload URL is signed: for a
    valid request and a fresh identifier, the row is in the table with
    status [PENDING], the given name and type and no hash, whether the
    signing goes through or not; when it fails the caller gets the error and
    the row stays.  Nothing is put into the store. *)
Theorem generateSignedUrl_reserves_first (fileName fileType : string)
    (fileSize : Z) (isPublic : bool) (user : User) (w : World) :
  includes allowedFileTypes fileType = true ->
  (fileSize <= maxFileSize)%Z ->
  u_id user <> EmptyString ->
  fault env OpCreateFile = None ->
  files w !! newFileId env = None ->
  let r := generateSignedUrl env fileName fileType fileSize isPublic user w in
  (exists f,
     files (snd r) !! newFileId env = Some f /\
     status f = PENDING /\ fileHash f = None /\ originalName f = fileName /\
     mimeType f = fileType /\ userId f = u_id user /\
     fileKey f = "users/" +:+ u_id user +:+ "/" +:+ uuidv4 env +:+ "-" +:+
                 sanitize fileName) /\
  bucket (snd r) = bucket w /\ documents (snd r) = documents w /\
  (forall e, fault env OpPresignPut = Some e -> fst r = Throw e) /\
  (fault env OpPresignPut = None ->
   exists signedUrl fileKey, fst r = Ok (signedUrl, fileKey, newFileId env)).
Proof.
  intros Htype Hsize Hid Hcreate Hfresh r. subst r.
  destruct (generateSignedUrl_run fileName fileType fileSize isPublic user w
              Htype Hsize Hid Hcreate Hfresh) as (w' & Hrun & Hf & Hd & Hb).
  rewrite Hrun. simpl. split; [|split; [exact Hb|split; [exact Hd|split]]].
  - eexists. split; [rewrite Hf; apply lookup_insert_eq|]. now repeat split.
  - intros e He. now rewrite He.
  - intros He. rewrite He. eauto.
Qed.

Lemma keptChar_sanitize (s : string) :
  Forall (fun c => keptChar c = true) (list_ascii_of_string (sanitize s)).
Proof.
  induction s as [|c s IH]; simpl; [constructor|].
  destruct (keptChar c) eqn:Hc; simpl; [now constructor|exact IH].
Qed.

Lemma sanitize_kept (s : string) :
  Forall (fun c => keptChar c = true) (list_ascii_of_string s) -> sanitize s = s.
Proof.
  induction s as [|c s IH]; simpl; [reflexivity|].
  intros H. inversion H as [|? ? Hc Hs]; subst. rewrite Hc. now rewrite IH.
Qed.

(** X11: the sanitized file name holds only letters, digits, dots, hyphens
    and underscores, so no slash, no blank and no control character reaches
    the storage key; a name made of such characters only is kept as it is,
    sanitizing twice changes nothing more, and no character is added. *)
Theorem sanitize_safe (s : string) :
  Forall (fun c => keptChar c = true) (list_ascii_of_string (sanitize s)) /\
  ~ In "/"%char (list_ascii_of_string (sanitize s)) /\
  sanitize (sanitize s) = sanitize s /\
  (Forall (fun c => keptChar c = true) (list_ascii_of_string s) ->
   sanitize s = s) /\
  (String.length (sanitize s) <= String.length s)%nat.
Proof.
  split; [apply keptChar_sanitize|]. split; [|split; [|split]].
  - intros Hin. pose proof (keptChar_sanitize s) as H.
    rewrite List.Forall_forall in H. specialize (H _ Hin). discriminate.
  - apply sanitize_kept, keptChar_sanitize.
  - apply sanitize_kept.
  - induction s as [|c s IH]; simpl; [lia|].
    destruct (keptChar c); simpl; lia.
Qed.

(** X12: a reservation keeps the tables well formed. *)
Theorem generateSignedUrl_keeps_wellFormed (fileName fileType : string)
    (fileSize : Z) (isPublic : bool) (user : User) (w : World) :
  wellFormed w ->
  wellFormed (snd (generateSignedUrl env fileName fileType fileSize isPublic
                                     user w)).
Proof.
  intros (Hkeyed & Howned). unfold generateSignedUrl.
  destruct (negb (includes allowedFileTypes fileType)); [now split|].
  destruct (maxFileSize <? fileSize)%Z; [now split|].
  destruct (String.eqb (u_id user) EmptyString); [now split|].
  unfold fileCreate. run.
  destruct (fault env OpCreateFile); simpl; [now split|].
  destruct (files w !! newFileId env) eqn:Hfresh; simpl; [now split|].
  assert (Hwf : wellFormed
    (set_files (insert (newFileId env)
      (mkFile (newFileId env)
         ("users/" +:+ u_id user +:+ "/" +:+ uuidv4 env +:+ "-" +:+ sanitize fileName)
         fileName None fileType PENDING (u_id user)
         (finalIsPublic isPublic user))) w)).
  { split.
    - unfold keyed. simpl. now apply map_Forall_insert_2.
    - unfold owned in *. simpl. eapply List.Forall_impl; [|exact Howned].
      intros d (f & Hf & Hown). simpl. exists f. split; [|exact Hown].
      rewrite lookup_insert_ne; [exact Hf|]. intros Heq. congruence. }
  destruct (fault env OpPresignPut); simpl; exact Hwf.
Qed.

End ReservationFacts.

(** ** Confirmation and roles *)

Section ConfirmFacts.
Import Frame UploadService UploadConfirm.

(** X13: a confirmation never changes a table or an object, and it puts a
    job on the queue only for a file that exists and belongs to the caller:
    then it is one "ingest" job for that file, at the end of the queue.  A
    missing file is answered with 404 and a file of somebody else with 403.
    The status of the file is not looked at. *)
Theorem confirmUpload_enqueues_own_file (rejectFind rejectAdd : option Err)
    (fileId : string) (user : User) (s : Sys) :
  let r := confirmUpload rejectFind rejectAdd fileId user s in
  sys_world (snd r) = sys_world s /\
  (sys_queue (snd r) = sys_queue s \/
   exists file,
     files (sys_world s) !! fileId = Some file /\ userId file = u_id user /\
     sys_queue (snd r) = sys_queue s ++ [mkJob "ingest" (id file)] /\
     fst r = Ok ("Ingestion started", id file)) /\
  (rejectFind = None -> files (sys_world s) !! fileId = None ->
   fst r = Throw (ApiError 404 "File not found")) /\
  (rejectFind = None ->
   forall file, files (sys_world s) !! fileId = Some file ->
     userId file <> u_id user ->
     fst r = Throw (ApiError 403 "Unauthorized access to file")) /\
  (rejectFind = None -> rejectAdd = None ->
   forall file, files (sys_world s) !! fileId = Some file ->
     userId file = u_id user ->
     fst r = Ok ("Ingestion started", id file) /\
     sys_queue (snd r) = sys_queue s ++ [mkJob "ingest" (id file)]).
Proof.
  intros r. subst r. unfold confirmUpload, addIngestionJob.
  destruct rejectFind as [e|]; simpl.
  { repeat split; auto; discriminate. }
  destruct (files (sys_world s) !! fileId) as [file|] eqn:Hrow; simpl.
  2: { repeat split; auto; discriminate. }
  destruct (String.eqb_spec (userId file) (u_id user)) as [Hown|Hother]; simpl.
  - destruct rejectAdd as [e|]; simpl.
    + split; [reflexivity|]. split; [now left|].
      split; [discriminate|]. split; [|discriminate].
      intros _ file' [= <-] Hne. contradiction.
    + split; [reflexivity|]. split.
      { right. exists file. now repeat split. }
      split; [discriminate|]. split.
      * intros _ file' [= <-] Hne. contradiction.
      * intros _ _ file' [= <-] _. now split.
  - split; [reflexivity|]. split; [now left|].
    split; [discriminate|]. split.
    + intros _ file' [= <-] _. reflexivity.
    + intros _ _ file' [= <-] Heq. contradiction.
Qed.

Lemma authorize_passes (requiredRoles : list Role) (u : User) :
  authorize requiredRoles (Some u) = None <-> u_role u ∈ requiredRoles.
Proof.
  unfold authorize. destruct (bool_decide (u_role u ∈ requiredRoles)) eqn:H.
  - apply bool_decide_eq_true in H. tauto.
  - apply bool_decide_eq_false in H. split; [discriminate|contradiction].
Qed.

(** X14: the upload routes let only the roles [USER] and [ADMIN] through: a
    contributor is answered with 403 and a request without a user with 401.
    So a reservation made through the routes is public only for an
    administrator who asked for it, although the service would grant it to
    a contributor. *)
Theorem upload_route_public_only_for_admin (env : Env) (user : User) :
  authorize uploadRoles None = Some (ApiError 401 "User not authenticated") /\
  (u_role user = CONTRIBUTOR ->
   authorize uploadRoles (Some user)
   = Some (ApiError 403 "User is not authorized to access this route")) /\
  (authorize uploadRoles (Some user) = None ->
   forall fileName fileType fileSize isPublic w f,
     files w !! newFileId env = None ->
     files (snd (generateSignedUrl env fileName fileType fileSize isPublic
                                   user w)) !! newFileId env = Some f ->
     Store.isPublic f = true ->
     isPublic = true /\ u_role user = ADMIN).
Proof.
  split; [reflexivity|]. split.
  - intros Hrole. unfold authorize. rewrite Hrole. reflexivity.
  - intros Hpass fileName fileType fileSize isPublic w f Hfresh Hrow Hpub.
    apply authorize_passes in Hpass.
    assert (Hrole : u_role user = USER \/ u_role user = ADMIN).
    { apply list_elem_of_In in Hpass. simpl in Hpass.
      destruct Hpass as [H|[H|[]]]; auto. }
    revert Hrow. unfold generateSignedUrl.
    destruct (negb (includes allowedFileTypes fileType)); simpl;
      [rewrite Hfresh; discriminate|].
    destruct (maxFileSize <? fileSize)%Z; simpl; [rewrite Hfresh; discriminate|].
    destruct (String.eqb (u_id user) EmptyString); simpl;
      [rewrite Hfresh; discriminate|].
    unfold fileCreate. run.
    destruct (fault env OpCreateFile); simpl; [rewrite Hfresh; discriminate|].
    rewrite Hfresh. simpl.
    assert (Hf : forall f0, Some f0 = Some f -> Store.isPublic f0 = true) by
      (intros f0 [= ->]; exact Hpub).
    destruct (fault env OpPresignPut); simpl; rewrite lookup_insert_eq;
      intros H; specialize (Hf _ H); simpl in Hf;
      apply finalIsPublic_true in Hf as [Hp [Hr|Hr]]; split; auto;
      destruct Hrole; congruence.
Qed.

End ConfirmFacts.

(** ** More on the chat operation *)

Section ChatFacts.
Import AgentValidation AgentService.
Context (env : Env).

Lemma answerFrom_errors (messages : list Message) (userId q : string)
    (w w' : World) (e : Err) :
  answerFrom env messages userId q w = (Throw e, w') ->
  fault env OpEmbedQuery = Some e \/ fault env OpQuery = Some e \/
  fault env OpStream = Some e.
Proof.
  unfold answerFrom, queryRaw. unfold bind at 1, call at 1.
  destruct (fault env OpEmbedQuery) as [e1|] eqn:He.
  { intros [= -> _]. now left. }
  unfold bind at 1, bind at 1, call at 1.
  destruct (fault env OpQuery) as [e2|] eqn:Hq.
  { intros [= -> _]. right. now left. }
  unfold gets at 1.
  set (w2 := add_call OpQuery (add_call OpEmbedQuery w)).
  set (docs := List.map (select env (embedText env q))
                        (retrieved env userId (embedText env q) w2)).
  destruct (packageDocs_run env docs 0 w2) as (ctx & w3 & ops & Hrun & _).
  unfold bind at 1. rewrite Hrun. unfold bind at 1, call at 1.
  destruct (fault env OpStream) as [e3|] eqn:Hs.
  - intros [= -> _]. right. now right.
  - discriminate.
Qed.

(** X15: [chat] only reads: it leaves every table and object as it is.  It
    fails with status 400 when there is no last message or its content is
    empty, before any call; otherwise it fails only with the error of the
    embedding, of the query or of the streaming call: the errors of the
    rewrite call and of the signing of the links never reach the caller. *)
Theorem chat_reads_only (messages : list Message) (userId : string) (w : World) :
  let r := chat env messages userId w in
  sameTables w (snd r) /\
  (forall e, fst r = Throw e ->
     e = ApiError 400 "Messages content is required" \/
     fault env OpEmbedQuery = Some e \/ fault env OpQuery = Some e \/
     fault env OpStream = Some e) /\
  (match last messages with
   | None => True
   | Some m => content m = EmptyString
   end ->
   r = (Throw (ApiError 400 "Messages content is required"), w)).
Proof.
  intros r. subst r. unfold chat.
  destruct (last messages) as [m|].
  2: { simpl. split; [now repeat split|]. split; [|reflexivity].
       intros e [= <-]. now left. }
  destruct (String.eqb_spec (content m) EmptyString) as [Hempty|Hfull].
  { simpl. split; [now repeat split|]. split; [|reflexivity].
    intros e [= <-]. now left. }
  destruct (refineSearchQuery_run env messages m w) as (q & w1 & Hq & Hsame & _).
  rewrite bind_run, Hq.
  destruct (answerFrom_run env messages userId q w1)
    as (out & w2 & ops & Hrun & Hsame2 & _).
  rewrite Hrun. simpl. split; [|split].
  - eapply sameTables_trans; eassumption.
  - intros e ->. right. eapply answerFrom_errors, Hrun.
  - intros Hc. contradiction.
Qed.

(** X16: for a conversation of more than one message whose rewrite call
    goes through, the search query is the text of the rewriter, whatever it
    is, and the retrieval runs on the embedding of that text. *)
Theorem chat_uses_rewritten_query (messages : list Message) (m : Message)
    (userId : string) (w : World) :
  (1 < length messages)%nat ->
  last messages = Some m ->
  content m <> EmptyString ->
  fault env OpRewrite = None ->
  exists w1,
    sameTables w w1 /\
    chat env messages userId w
    = answerFrom env messages userId (rewriteQuery env messages) w1 /\
    forall res w',
      chat env messages userId w = (Ok res, w') ->
      cr_searchQuery res = rewriteQuery env messages /\
      cr_documents res
      = List.map (select env (embedText env (rewriteQuery env messages)))
                 (retrieved env userId (embedText env (rewriteQuery env messages)) w).
Proof.
  intros Hlen Hlast Hfull Hrewrite.
  apply String.eqb_neq in Hfull. apply Nat.ltb_lt in Hlen.
  assert (Hq : exists w1,
    refineSearchQuery env messages m w = (Ok (rewriteQuery env messages), w1) /\
    sameTables w w1).
  { unfold refineSearchQuery. rewrite Hlen. run. rewrite Hrewrite. simpl.
    eexists. split; [reflexivity|now repeat split]. }
  destruct Hq as (w1 & Hq & Hsame). exists w1. split; [exact Hsame|].
  assert (Hchat : chat env messages userId w
                  = answerFrom env messages userId (rewriteQuery env messages) w1).
  { unfold chat. rewrite Hlast, Hfull, bind_run, Hq. reflexivity. }
  split; [exact Hchat|].
  intros res w' Hrun. rewrite Hchat in Hrun.
  destruct (answerFrom_run env messages userId (rewriteQuery env messages) w1)
    as (out & w2 & ops & Hrun' & _ & _ & _ & Hok & _).
  rewrite Hrun' in Hrun. injection Hrun as -> <-.
  destruct (Hok res eq_refl) as (Hquery & _ & Hdocs).
  split; [exact Hquery|]. rewrite Hdocs.
  now rewrite (retrieved_sameTables env _ _ w w1).
Qed.

(** X17: the similarity query returns the nearest rows the caller may see:
    the rows it leaves out are all at least as far from the query vector as
    every row it returns, and when the caller may see at most five rows it
    returns them all. *)
Theorem retrieved_nearest (userId : string) (q : Vec) (w : World) :
  exists rest,
    Permutation (retrieved env userId q w ++ rest)
                (List.filter (where_ userId) (joined w)) /\
    Forall (fun r => Forall (fun r' => (distance env q r <= distance env q r')%Q)
                            rest)
           (retrieved env userId q w) /\
    ((length (List.filter (where_ userId) (joined w)) <= 5)%nat -> rest = []).
Proof.
  set (visible := List.filter (where_ userId) (joined w)).
  set (sorted := orderBy (distance env q) visible).
  exists (skipn 5 sorted). unfold retrieved. fold visible. fold sorted.
  split; [|split].
  - rewrite firstn_skipn. apply orderBy_Permutation.
  - apply (sorted_app_le (ascending (distance env q))).
    rewrite firstn_skipn. apply orderBy_sorted.
  - intros Hlen. apply skipn_all2. unfold sorted.
    rewrite (Permutation_length (orderBy_Permutation (distance env q) visible)).
    exact Hlen.
Qed.

End ChatFacts.

(** ** File cleanup *)

Section CleanupFacts.
Import Frame FileCleanup.
Context (cenv : CleanupEnv).

Lemma shrinks_refl (w : World) : shrinks w w.
Proof. repeat split; auto. Qed.

Lemma shrinks_trans (w1 w2 w3 : World) :
  shrinks w1 w2 -> shrinks w2 w3 -> shrinks w1 w3.
Proof.
  intros (Hf & Hb & Hd) (Hf' & Hb' & Hd'). repeat split.
  - intros k. destruct (Hf' k) as [H|H]; [rewrite H; apply Hf|now right].
  - intros k. destruct (Hb' k) as [H|H]; [rewrite H; apply Hb|now right].
  - auto.
Qed.

Lemma shrinks_log (l : Level) (msg : string) (w : World) :
  shrinks w (add_log l msg w).
Proof. repeat split; auto. Qed.

Lemma preserves_attempt (R : World -> World -> Prop) (o : CleanupOp) :
  (forall w, R w w) -> preserves R (attempt cenv o).
Proof.
  intros Hrefl w out w'. unfold attempt.
  destruct (cfault cenv o); intros [= <- <-]; apply Hrefl.
Qed.

Lemma preserves_modify (R : World -> World -> Prop) (f : World -> World) :
  (forall w, R w (f w)) -> preserves R (modify f).
Proof. intros Hf w out w' [= <- <-]. apply Hf. Qed.

Lemma shrinks_cleanObject (file : File) : preserves shrinks (cleanObject cenv file).
Proof.
  unfold cleanObject. destruct (negb _).
  - apply preserves_tryCatch; [apply shrinks_trans| |].
    + apply preserves_bind; [apply shrinks_trans| |intros _].
      * apply preserves_attempt, shrinks_refl.
      * apply preserves_modify. intros w. repeat split; auto. simpl.
        intros k. destruct (decide (k = fileKey file)) as [->|Hk].
        -- right. apply lookup_delete_eq.
        -- left. now apply lookup_delete_ne.
    + intros e. apply preserves_logger, shrinks_log.
  - apply preserves_ret, shrinks_refl.
Qed.

Lemma shrinks_deleteRow (fileId : string) : preserves shrinks (deleteRow cenv fileId).
Proof.
  unfold deleteRow.
  apply preserves_bind; [apply shrinks_trans| |intros _].
  { apply preserves_attempt, shrinks_refl. }
  apply preserves_bind; [apply shrinks_trans| |intros [f|]].
  - apply preserves_gets, shrinks_refl.
  - apply preserves_modify. intros w. repeat split; auto; simpl.
    + intros k. destruct (decide (k = fileId)) as [->|Hk].
      * right. apply lookup_delete_eq.
      * left. now apply lookup_delete_ne.
    + intros d Hd. now apply filter_In in Hd.
  - apply preserves_throw, shrinks_refl.
Qed.

Lemma shrinks_cleanEach (l : list File) (n : nat) :
  preserves shrinks (cleanEach cenv l n).
Proof.
  revert n. induction l as [|file l IH]; intros n; simpl.
  - apply preserves_ret, shrinks_refl.
  - apply preserves_bind; [apply shrinks_trans| |intros m; apply IH].
    apply preserves_tryCatch; [apply shrinks_trans| |intros e].
    + apply preserves_bind; [apply shrinks_trans|apply shrinks_cleanObject|intros _].
      apply preserves_bind; [apply shrinks_trans|apply shrinks_deleteRow|intros _].
      apply preserves_ret, shrinks_refl.
    + apply preserves_bind; [apply shrinks_trans| |intros _].
      * apply preserves_logger, shrinks_log.
      * apply preserves_ret, shrinks_refl.
Qed.

Section FromStart.
Context (w0 : World).

Abbreviation keeps := (fun w w' : World => cleaned cenv w0 w -> cleaned cenv w0 w').

Lemma keeps_trans (w1 w2 w3 : World) : keeps w1 w2 -> keeps w2 w3 -> keeps w1 w3.
Proof. intros H1 H2 H. apply H2, H1, H. Qed.

Lemma cleaned_cleanObject (file : File) :
  files w0 !! id file = Some file -> abandoned cenv file = true ->
  preserves keeps (cleanObject cenv file).
Proof.
  intros Hrow Hab. unfold cleanObject. destruct (negb _).
  - apply preserves_tryCatch; [apply keeps_trans| |].
    + apply preserves_bind; [apply keeps_trans| |intros _].
      * apply preserves_attempt. auto.
      * apply preserves_modify. intros w (Hf & Hb & Hd & Hd').
        split; [exact Hf|]. split; [|split; assumption]. simpl.
        intros k. destruct (decide (k = fileKey file)) as [->|Hk].
        -- right. split; [apply lookup_delete_eq|]. now exists (id file), file.
        -- rewrite lookup_delete_ne by congruence. apply Hb.
    + intros e. apply preserves_logger. auto.
  - apply preserves_ret. auto.
Qed.

Lemma cleaned_deleteRow (file : File) :
  files w0 !! id file = Some file -> abandoned cenv file = true ->
  preserves keeps (deleteRow cenv (id file)).
Proof.
  intros Hrow Hab. unfold deleteRow.
  apply preserves_bind; [apply keeps_trans| |intros _].
  { apply preserves_attempt. auto. }
  apply preserves_bind; [apply keeps_trans| |intros [f|]].
  - apply preserves_gets. auto.
  - apply preserves_modify. intros w (Hf & Hb & Hd & Hd').
    split; [|split; [exact Hb|split]]; simpl.
    + intros k. destruct (decide (k = id file)) as [->|Hk].
      * right. split; [apply lookup_delete_eq|]. now exists file.
      * rewrite lookup_delete_ne by congruence. apply Hf.
    + intros d Hin. apply filter_In in Hin as [Hin _]. now apply Hd.
    + intros d Hin Hsome. apply filter_In.
      destruct (String.eqb_spec (doc_fileId d) (id file)) as [Heq|Hne].
      * rewrite Heq, lookup_delete_eq in Hsome. contradiction.
      * split; [|reflexivity]. apply Hd'; [exact Hin|].
        now rewrite lookup_delete_ne in Hsome by congruence.
  - apply preserves_throw. auto.
Qed.

Lemma cleaned_cleanEach (l : list File) (n : nat) :
  Forall (fun f => files w0 !! id f = Some f /\ abandoned cenv f = true) l ->
  preserves keeps (cleanEach cenv l n).
Proof.
  intros Hl. revert n. induction Hl as [|file l [Hrow Hab] _ IH]; intros n; simpl.
  - apply preserves_ret. auto.
  - apply preserves_bind; [apply keeps_trans| |intros m; apply IH].
    apply preserves_tryCatch; [apply keeps_trans| |intros e].
    + apply preserves_bind; [apply keeps_trans| |intros _].
      { now apply cleaned_cleanObject. }
      apply preserves_bind; [apply keeps_trans| |intros _].
      { now apply cleaned_deleteRow. }
      apply preserves_ret. auto.
    + apply preserves_bind; [apply keeps_trans| |intros _].
      * apply preserves_logger. auto.
      * apply preserves_ret. auto.
Qed.

End FromStart.

Lemma cleaned_sameTables (w w' : World) : sameTables w w' -> cleaned cenv w w'.
Proof.
  intros (Hf & Hd & Hb). unfold cleaned. rewrite Hf, Hd, Hb. repeat split; auto.
Qed.


Lemma cleanEach_returns (l : list File) (n : nat) (w : World) :
  exists m w', cleanEach cenv l n w = (Ok m, w') /\ (m <= n + length l)%nat.
Proof.
  revert n w. induction l as [|file l IH]; intros n w; simpl.
  - exists n, w. split; [reflexivity|lia].
  - rewrite bind_run. unfold tryCatch.
    destruct ((bind (cleanObject cenv file)
                (fun _ => bind (deleteRow cenv (id file))
                            (fun _ => ret (S n)))) w) as [[m|e] w1] eqn:Hrun.
    + assert (m = S n) as ->.
      { revert Hrun. rewrite bind_run.
        destruct (cleanObject cenv file w) as [[[]|e1] w2]; [|discriminate].
        rewrite bind_run.
        destruct (deleteRow cenv (id file) w2) as [[[]|e2] w3]; [|discriminate].
        now intros [= <- _]. }
      destruct (IH (S n) w1) as (m & w' & Hrest & Hle).
      exists m, w'. split; [exact Hrest|]. lia.
    + run. destruct (IH n (add_log Error
         ("Failed to delete DB record for file " +:+ id file +:+ ": " +:+
          errToString e) w1)) as (m & w' & Hrest & Hle).
      exists m, w'. split; [exact Hrest|]. lia.
Qed.

Lemma abandoned_rows (w : World) :
  keyed w ->
  Forall (fun f => files w !! id f = Some f /\ abandoned cenv f = true)
         (List.filter (abandoned cenv) (snd <$> map_to_list (files w))).
Proof.
  intros Hkeyed. apply List.Forall_forall. intros f Hf.
  apply filter_In in Hf as [Hin Hab]. split; [|exact Hab].
  apply list_elem_of_In, list_elem_of_fmap in Hin as ((k & f') & -> & Hin).
  apply elem_of_map_to_list in Hin. simpl.
  now rewrite (Hkeyed _ _ Hin).
Qed.

(** X18: the cleanup job removes nothing but abandoned files: on tables
    whose rows sit under their [id], every row is afterwards as it was or,
    if it was [PENDING] or [FAILED] and older than 24 hours, gone; only
    objects of such rows can be gone; no chunk appears and the chunks of the
    rows that stay, stay.  The job fails only when the search for the
    abandoned files does, before anything is deleted, and a job of another
    name does nothing. *)
Theorem processFileCleanupJob_only_abandoned (jobId jobName : string) (w : World) :
  keyed w ->
  let r := processFileCleanupJob cenv jobId jobName w in
  cleaned cenv w (snd r) /\
  (forall e, fst r = Throw e ->
     cfault cenv OpFindMany = Some e /\ sameTables w (snd r)) /\
  (jobName <> "cleanAbandonedFiles" -> fst r = Ok None /\ sameTables w (snd r)).
Proof.
  intros Hkeyed r. subst r. unfold processFileCleanupJob, findMany, attempt. run.
  destruct (String.eqb_spec jobName "cleanAbandonedFiles") as [Hname|Hname].
  2: { simpl. split; [apply cleaned_sameTables; now repeat split|].
       split; [discriminate|].
       intros _. split; [reflexivity|now repeat split]. }
  destruct (cfault cenv OpFindMany) as [e|] eqn:Hfind; simpl.
  { split; [apply cleaned_sameTables; now repeat split|].
    split; [|contradiction].
    intros e' [= <-]. split; [reflexivity|now repeat split]. }
  set (l := List.filter (abandoned cenv) (snd <$> map_to_list (files w))).
  destruct (length l =? 0)%nat; simpl.
  { split; [apply cleaned_sameTables; now repeat split|].
    split; [discriminate|contradiction]. }
  match goal with
  | |- context [cleanEach cenv l 0 ?W] =>
      destruct (cleanEach_returns l 0 W) as (m & w2 & Hrun & _);
      pose proof (cleaned_cleanEach w l 0 (abandoned_rows w Hkeyed) W
                    (Ok m) w2 Hrun
                    (cleaned_sameTables w W (conj eq_refl (conj eq_refl eq_refl))))
        as Hclean
  end.
  rewrite Hrun. simpl. split; [|split; [discriminate|contradiction]].
  destruct Hclean as (Hf & Hb & Hd & Hd'). now repeat split.
Qed.

Lemma cleanObject_run (file : File) (w : World) :
  exists w1,
    cleanObject cenv file w = (Ok tt, w1) /\
    files w1 = files w /\ documents w1 = documents w /\
    (cfault cenv (OpCleanObject (id file)) = None ->
     fileKey file <> EmptyString -> bucket w1 !! fileKey file = None).
Proof.
  unfold cleanObject, attempt.
  destruct (String.eqb_spec (fileKey file) EmptyString) as [Hkey|Hkey]; simpl.
  - exists w. now repeat split.
  - run. destruct (cfault cenv (OpCleanObject (id file))); simpl.
    + eexists. split; [reflexivity|]. repeat split. discriminate.
    + eexists. split; [reflexivity|]. simpl. repeat split.
      intros _ _. apply lookup_delete_eq.
Qed.

Lemma cleanEach_deletes_all (l : list File) (n : nat) (w : World) :
  (forall i, cfault cenv (OpCleanRow i) = None) ->
  NoDup (id <$> l) ->
  Forall (fun f => files w !! id f = Some f) l ->
  exists w',
    cleanEach cenv l n w = (Ok (n + length l)%nat, w') /\
    Forall (fun f =>
              files w' !! id f = None /\
              (cfault cenv (OpCleanObject (id f)) = None ->
               fileKey f <> EmptyString -> bucket w' !! fileKey f = None) /\
              (forall d, In d (documents w') -> doc_fileId d <> id f)) l.
Proof.
  intros Hrows. revert n w. induction l as [|file l IH]; intros n w Hnodup Hl.
  { exists w. simpl. rewrite Nat.add_0_r. split; [reflexivity|constructor]. }
  inversion Hl as [|? ? Hrow Hl']; subst.
  rewrite fmap_cons in Hnodup. apply NoDup_cons in Hnodup as [Hnotin Hnodup].
  destruct (cleanObject_run file w) as (w1 & Hobj & Hf1 & Hd1 & Hb1).
  simpl. rewrite bind_run. unfold tryCatch. rewrite bind_run, Hobj.
  unfold deleteRow, attempt. run. rewrite Hrows. simpl. rewrite Hf1, Hrow. simpl.
  match goal with
  | |- context [cleanEach cenv l (S n) ?W] =>
      set (w2 := W);
      destruct (IH (S n) w2 Hnodup) as (w' & Hrun & Hall);
      [|pose proof (shrinks_cleanEach l (S n) w2 _ _ Hrun) as (Hsf & Hsb & Hsd)]
  end.
  { apply List.Forall_forall. intros f Hin. rewrite List.Forall_forall in Hl'.
    subst w2. simpl. rewrite Hf1, lookup_delete_ne; [now apply Hl'|].
    intros Heq. apply Hnotin. rewrite Heq. apply list_elem_of_fmap.
    exists f. split; [reflexivity|now apply list_elem_of_In]. }
  exists w'. rewrite Hrun.
  rewrite Nat.add_succ_r. split; [reflexivity|].
  constructor; [|exact Hall]. split; [|split].
  - destruct (Hsf (id file)) as [H|H]; [|exact H].
    rewrite H. subst w2. simpl. rewrite Hf1. apply lookup_delete_eq.
  - intros Hs3 Hkey. destruct (Hsb (fileKey file)) as [H|H]; [|exact H].
    rewrite H. subst w2. simpl. now apply Hb1.
  - intros d Hin. apply Hsd in Hin. subst w2. simpl in Hin.
    apply filter_In in Hin as [_ Hne].
    now apply negb_true_iff, String.eqb_neq in Hne.
Qed.

Lemma NoDup_fmap_filter {A B} (f : A -> B) (p : A -> bool) (l : list A) :
  NoDup (f <$> l) -> NoDup (f <$> List.filter p l).
Proof.
  induction l as [|x l IH]; [auto|].
  rewrite fmap_cons. intros Hn. apply NoDup_cons in Hn as [Hnotin Hn].
  simpl. destruct (p x); [|now apply IH].
  rewrite fmap_cons. apply NoDup_cons. split; [|now apply IH].
  intros Hin. apply Hnotin.
  apply list_elem_of_fmap in Hin as (y & -> & Hy).
  apply list_elem_of_fmap. exists y. split; [reflexivity|].
  apply list_elem_of_In. apply list_elem_of_In in Hy.
  now apply filter_In in Hy.
Qed.

Lemma rows_NoDup (w : World) :
  keyed w -> NoDup (id <$> (snd <$> map_to_list (files w))).
Proof.
  intros Hkeyed.
  assert (Heq : id <$> (snd <$> map_to_list (files w))
                = fst <$> map_to_list (files w)).
  { rewrite <- list_fmap_compose. apply list_fmap_ext.
    intros i [k f] Hin. simpl.
    apply list_elem_of_lookup_2, elem_of_map_to_list in Hin.
    exact (Hkeyed _ _ Hin). }
  rewrite Heq. apply NoDup_fst_map_to_list.
Qed.

(** X19: when the search and the row deletes go through, the cleanup job
    removes every abandoned file: its row is gone, its chunks are gone, and
    the number it reports is the number of abandoned rows.  The object of a
    file is gone when the store answers for it; when the store fails, the
    row is deleted and counted all the same. *)
Theorem processFileCleanupJob_deletes_all (jobId : string) (w : World) :
  keyed w ->
  cfault cenv OpFindMany = None ->
  (forall i, cfault cenv (OpCleanRow i) = None) ->
  exists w',
    processFileCleanupJob cenv jobId "cleanAbandonedFiles" w
    = (Ok (Some (length (List.filter (abandoned cenv)
                                     (snd <$> map_to_list (files w))))), w') /\
    forall k f,
      files w !! k = Some f -> abandoned cenv f = true ->
      files w' !! k = None /\
      (cfault cenv (OpCleanObject k) = None -> fileKey f <> EmptyString ->
       bucket w' !! fileKey f = None) /\
      (forall d, In d (documents w') -> doc_fileId d <> k).
Proof.
  intros Hkeyed Hfind Hrows.
  unfold processFileCleanupJob, findMany, attempt. run. rewrite Hfind. simpl.
  set (l := List.filter (abandoned cenv) (snd <$> map_to_list (files w))).
  assert (Hmem : forall k f, files w !! k = Some f -> abandoned cenv f = true ->
                             In f l /\ id f = k).
  { intros k f Hrow Hab. split; [|exact (Hkeyed _ _ Hrow)].
    apply filter_In. split; [|exact Hab].
    apply list_elem_of_In, list_elem_of_fmap. exists (k, f).
    split; [reflexivity|]. now apply elem_of_map_to_list. }
  destruct (length l =? 0)%nat eqn:Hlen; simpl.
  { apply Nat.eqb_eq in Hlen. rewrite Hlen. eexists. split; [reflexivity|].
    intros k f Hrow Hab. destruct (Hmem k f Hrow Hab) as [Hin _].
    destruct l; [contradiction|discriminate]. }
  match goal with
  | |- context [cleanEach cenv l 0 ?W] =>
      destruct (cleanEach_deletes_all l 0 W Hrows) as (w' & Hrun & Hall)
  end.
  { apply NoDup_fmap_filter, rows_NoDup, Hkeyed. }
  { simpl. eapply List.Forall_impl; [|apply (abandoned_rows w Hkeyed)].
    intros f [Hrow _]. exact Hrow. }
  rewrite Hrun. simpl. eexists. split; [reflexivity|]. simpl.
  intros k f Hrow Hab. destruct (Hmem k f Hrow Hab) as [Hin <-].
  rewrite List.Forall_forall in Hall. exact (Hall f Hin).
Qed.

End CleanupFacts.

(** ** The listing of files *)

Section FileServiceFacts.
Import AgentService FileService.
Context (fenv : FileEnv).

Lemma StronglySorted_impl_sorted {A} (key : A -> Z) (l : list A) :
  StronglySorted (ascending (fun a => inject_Z (- key a))) l ->
  StronglySorted (fun a b => (key b <= key a)%Z) l.
Proof.
  induction 1 as [|a l Hs IH Hall]; constructor; [exact IH|].
  eapply List.Forall_impl; [|exact Hall].
  intros b Hb. unfold ascending in Hb. rewrite <- Zle_Qle in Hb. lia.
Qed.

Lemma selected_rows (user : User) (filter : string) (w : World) (f : File) :
  In f (selected fenv user filter w) <->
  (exists k, files w !! k = Some f) /\ whereOf user filter f = true.
Proof.
  unfold selected. split.
  - intros Hin. eapply Permutation_in in Hin; [|apply orderBy_Permutation].
    apply filter_In in Hin as [Hin Hw]. split; [|exact Hw].
    apply list_elem_of_In, list_elem_of_fmap in Hin as ((k & f') & -> & Hin).
    exists k. now apply elem_of_map_to_list.
  - intros [[k Hrow] Hw].
    eapply Permutation_in; [symmetry; apply orderBy_Permutation|].
    apply filter_In. split; [|exact Hw].
    apply list_elem_of_In, list_elem_of_fmap. exists (k, f).
    split; [reflexivity|]. now apply elem_of_map_to_list.
Qed.

(** X20: the listing shows a user the files of the table that the filter
    selects and no other: with ['mine'] the files of the user, with
    ['public'] the public files, with anything else both; so never a
    private file of somebody else.  The entries come newest first, the
    address of an administrator is always replaced by "Admin", and the
    listing changes nothing. *)
Theorem listFiles_visible (user : User) (filter : string) (w : World) :
  let rows := selected fenv user filter w in
  (forall f, In f rows <->
             (exists k, files w !! k = Some f) /\ whereOf user filter f = true) /\
  Forall (fun f => userId f = u_id user \/ isPublic f = true) rows /\
  (filter = "mine" -> Forall (fun f => userId f = u_id user) rows) /\
  (filter = "public" -> Forall (fun f => isPublic f = true) rows) /\
  StronglySorted (fun f f' => (fileCreatedAt fenv (id f') <=
                               fileCreatedAt fenv (id f))%Z) rows /\
  snd (listFiles fenv user filter w) = w /\
  (forall entries,
     fst (listFiles fenv user filter w) = Ok entries ->
     entries = List.map (fun f => mask (entry fenv f)) rows /\
     Forall (fun e => acc_role (l_user e) = ADMIN -> acc_email (l_user e) = "Admin")
            entries).
Proof.
  intros rows. subst rows.
  split; [apply selected_rows|]. split; [|split; [|split; [|split; [|split]]]].
  - apply List.Forall_forall. intros f Hin.
    apply selected_rows in Hin as [_ Hw]. unfold whereOf in Hw.
    destruct (String.eqb filter "mine").
    { left. now apply String.eqb_eq. }
    destruct (String.eqb filter "public"); [now right|].
    apply orb_true_iff in Hw as [Hw|Hw]; [left; now apply String.eqb_eq|now right].
  - intros ->. apply List.Forall_forall. intros f Hin.
    apply selected_rows in Hin as [_ Hw]. unfold whereOf in Hw. simpl in Hw.
    now apply String.eqb_eq.
  - intros ->. apply List.Forall_forall. intros f Hin.
    apply selected_rows in Hin as [_ Hw]. exact Hw.
  - unfold selected.
    apply (StronglySorted_impl_sorted (fun f => fileCreatedAt fenv (id f))).
    apply (orderBy_sorted (fun f => inject_Z (- fileCreatedAt fenv (id f)))).
  - unfold listFiles. now destruct (listFault fenv).
  - intros entries. unfold listFiles.
    destruct (listFault fenv); [discriminate|]. intros [= <-].
    split; [reflexivity|]. apply List.Forall_map, List.Forall_forall.
    intros f _. unfold mask.
    destruct (bool_decide (acc_role (l_user (entry fenv f)) = ADMIN)) eqn:Hrole.
    + simpl. reflexivity.
    + apply bool_decide_eq_false in Hrole. intros H. contradiction.
Qed.

End FileServiceFacts.

(** ** Runs on the small installation *)

Section MoreRuns.
Import Frame IngestionWorker IngestionSteps AgentValidation AgentService
       UploadService UploadConfirm FileCleanup.

Lemma demo_allAnswer : allAnswer (Demo.env []).
Proof. intros o. reflexivity. Qed.

Lemma demo_world_owned : owned Demo.world.
Proof.
  unfold owned. repeat constructor; eexists; (split; [vm_compute; reflexivity|]);
    reflexivity.
Qed.

Lemma demo_world_wellFormed : wellFormed Demo.world.
Proof. split; [exact demo_world_keyed|exact demo_world_owned]. Qed.

(** The job for the memo of carol. *)
Lemma processJob_ingests_witness :
  exists w',
    processJob (Demo.env []) "job-1" "file-5" Demo.world = (Ok tt, w') /\
    (status <$> files w' !! "file-5") = Some COMPLETED /\
    documents w'
    = documents Demo.world ++
      [mkDocument "Lunch is at noon." [("originalName", JStr "memo.txt")]
                  "carol" "file-5" [17%Q]].
Proof.
  destruct (processJob_ingests (Demo.env []) "job-1" "file-5" Demo.file5
              Demo.memo Demo.world) as (w' & Hrun & Hf & Hd & _).
  - exact demo_allAnswer.
  - vm_compute; reflexivity.
  - vm_compute; reflexivity.
  - apply (bool_decide_unpack _). vm_compute. exact I.
  - vm_compute; reflexivity.
  - exists w'. split; [exact Hrun|]. rewrite Hf, Hd. split.
    + now rewrite lookup_insert_eq.
    + vm_compute. reflexivity.
Defined.

(** The job for a file that holds white space only, a byte order mark and a
    no-break space among it. *)
Lemma processJob_blank_text_witness :
  exists w',
    processJob (Demo.env []) "job-2" "file-6" Demo2.world = (Ok tt, w') /\
    (status <$> files w' !! "file-6") = Some FAILED /\
    documents w' = documents Demo2.world.
Proof.
  destruct (processJob_blank_text (Demo.env []) "job-2" "file-6" Demo2.file6
              Demo2.blank Demo2.world) as (w' & Hrun & Hf & Hd & _).
  - exact demo_allAnswer.
  - vm_compute; reflexivity.
  - vm_compute; reflexivity.
  - apply (bool_decide_unpack _). vm_compute. exact I.
  - vm_compute; reflexivity.
  - exists w'. split; [exact Hrun|]. rewrite Hf, Hd. split; [|reflexivity].
    now rewrite lookup_insert_eq.
Defined.

(** The job for the notes of bob, whose object was never uploaded. *)
Lemma processJob_missing_object_witness :
  exists w',
    processJob (Demo.env []) "job-3" "file-3" Demo.world = (Ok tt, w') /\
    files w' !! "file-3" = None /\
    documents w' = [Demo.far; Demo.near; Demo.middle].
Proof.
  destruct (processJob_missing_object (Demo.env []) "job-3" "file-3" Demo.file3
              noSuchKey Demo.world) as [Hclean _].
  - vm_compute; reflexivity.
  - reflexivity.
  - reflexivity.
  - right. split; [reflexivity|]. split; [vm_compute; reflexivity|reflexivity].
  - destruct Hclean as (w' & Hrun & Hf & Hd & _); [reflexivity|reflexivity|].
    exists w'. split; [exact Hrun|]. rewrite Hf, Hd. split.
    + apply lookup_delete_eq.
    + vm_compute. reflexivity.
Defined.

(** The job for a text of two chunks when the second embedding times out. *)
Lemma processJob_partial_failure_witness :
  exists w',
    processJob (Demo.env [OpEmbedChunk 1]) "job-4" "file-7" Demo2.world
    = (Throw Demo.boom, w') /\
    (status <$> files w' !! "file-7") = Some FAILED /\
    length (documents w') = S (length (documents Demo2.world)).
Proof.
  destruct (processJob_partial_failure (Demo.env [OpEmbedChunk 1]) "job-4" "file-7"
              Demo2.file7 Demo2.long 1 Demo.boom Demo2.world)
    as (w' & Hrun & Hf & Hd & _).
  - vm_compute. lia.
  - reflexivity.
  - intros o Ho. simpl. unfold Demo.failingAt.
    rewrite bool_decide_eq_false_2; [reflexivity|].
    intros Hin. apply list_elem_of_singleton in Hin. contradiction.
  - vm_compute; reflexivity.
  - vm_compute; reflexivity.
  - apply (bool_decide_unpack _). vm_compute. exact I.
  - vm_compute; reflexivity.
  - exists w'. split; [exact Hrun|]. rewrite Hf, Hd. split.
    + now rewrite lookup_insert_eq.
    + vm_compute. reflexivity.
Defined.

Lemma processJob_keeps_wellFormed_witness :
  wellFormed Demo.world /\
  wellFormed (snd (processJob (Demo.env []) "job-1" "file-5" Demo.world)).
Proof.
  split; [exact demo_world_wellFormed|].
  apply processJob_keeps_wellFormed. exact demo_world_wellFormed.
Defined.

Lemma retrieved_owner_or_public_witness :
  Forall (fun r => exists f,
            snd r = Some f /\ files Demo.world !! doc_fileId (fst r) = Some f /\
            (Store.userId f = "alice" \/ isPublic f = true))
         (retrieved (Demo.env []) "alice" [] Demo.world).
Proof.
  apply retrieved_owner_or_public. exact demo_world_owned.
Defined.

(** Two jobs for the memo of carol. *)
Lemma processJob_twice_doubles_chunks_witness :
  exists w1 w2,
    processJob (Demo.env []) "job-1" "file-5" Demo.world = (Ok tt, w1) /\
    processJob (Demo.env []) "job-9" "file-5" w1 = (Ok tt, w2) /\
    length (documents w2) = S (S (length (documents Demo.world))).
Proof.
  destruct (processJob_twice_doubles_chunks (Demo.env []) "job-1" "job-9" "file-5"
              Demo.file5 Demo.memo Demo.world)
    as (w1 & w2 & Hrun1 & Hrun2 & Hd & _).
  - exact demo_allAnswer.
  - exact demo_world_keyed.
  - vm_compute; reflexivity.
  - vm_compute; reflexivity.
  - apply (bool_decide_unpack _). vm_compute. exact I.
  - vm_compute; reflexivity.
  - exists w1, w2. split; [exact Hrun1|]. split; [exact Hrun2|].
    rewrite Hd. vm_compute. reflexivity.
Defined.

(** A request for an executable. *)
Lemma generateSignedUrl_rejects_witness :
  exists msg,
    generateSignedUrl (Demo.env []) "setup.exe" "application/x-msdownload" 1000
                      false Demo.alice Demo.world
    = (Throw (ApiError 400 msg), Demo.world).
Proof.
  apply generateSignedUrl_rejects. left. vm_compute; reflexivity.
Defined.

(** A request whose signing times out. *)
Lemma generateSignedUrl_reserves_first_witness :
  let r := generateSignedUrl (Demo.env [OpPresignPut]) "memo.txt" "text/plain"
                             1000 false Demo.alice Demo.world in
  fst r = Throw Demo.boom /\
  exists f, files (snd r) !! "file-9" = Some f /\ status f = PENDING.
Proof.
  destruct (generateSignedUrl_reserves_first (Demo.env [OpPresignPut]) "memo.txt"
              "text/plain" 1000 false Demo.alice Demo.world)
    as ((f & Hrow & Hstatus & _) & _ & _ & Hfail & _).
  - vm_compute; reflexivity.
  - vm_compute; discriminate.
  - discriminate.
  - reflexivity.
  - vm_compute; reflexivity.
  - split; [apply Hfail; reflexivity|]. exists f. now split.
Defined.

Lemma generateSignedUrl_keeps_wellFormed_witness :
  wellFormed (snd (generateSignedUrl (Demo.env []) "memo.txt" "text/plain" 1000
                                     false Demo.alice Demo.world)).
Proof.
  apply generateSignedUrl_keeps_wellFormed. exact demo_world_wellFormed.
Defined.

(** The conversation about Tesla and SpaceX when the rewriter answers. *)
Lemma chat_uses_rewritten_query_witness :
  exists res w',
    chat (Demo.env []) Demo.conversation "alice" Demo.world = (Ok res, w') /\
    cr_searchQuery res = "Who is the CEO of SpaceX?".
Proof.
  destruct (chat_uses_rewritten_query (Demo.env []) Demo.conversation
              (mkMessage RoleUser "And SpaceX?") "alice" Demo.world)
    as (w1 & _ & _ & Hok).
  - simpl. lia.
  - reflexivity.
  - discriminate.
  - reflexivity.
  - destruct (chat (Demo.env []) Demo.conversation "alice" Demo.world)
      as [[res|e] w'] eqn:Hrun.
    + exists res, w'. split; [reflexivity|]. now destruct (Hok res w' eq_refl).
    + vm_compute in Hrun. discriminate.
Defined.

(** The cleanup two days after the reservation of "file-2", whose object
    the store refuses to delete: the row goes all the same. *)
Lemma processFileCleanupJob_only_abandoned_witness :
  let r := processFileCleanupJob (Demo2.cleanup [OpCleanObject "file-2"]) "job-5"
                                 "cleanAbandonedFiles" Demo.world in
  cleaned (Demo2.cleanup [OpCleanObject "file-2"]) Demo.world (snd r) /\
  fst r = Ok (Some 1%nat) /\
  files (snd r) !! "file-2" = None /\
  files (snd r) !! "file-5" = Some Demo.file5 /\
  is_Some (bucket (snd r) !! "users/alice/2-budget-copy.txt").
Proof.
  split.
  - apply (processFileCleanupJob_only_abandoned
             (Demo2.cleanup [OpCleanObject "file-2"]) "job-5"
             "cleanAbandonedFiles" Demo.world demo_world_keyed).
  - repeat split; try (vm_compute; reflexivity). vm_compute. eauto.
Defined.

Lemma processFileCleanupJob_deletes_all_witness :
  exists w',
    processFileCleanupJob (Demo2.cleanup []) "job-5" "cleanAbandonedFiles"
                          Demo.world = (Ok (Some 1%nat), w') /\
    files w' !! "file-2" = None /\
    bucket w' !! "users/alice/2-budget-copy.txt" = None.
Proof.
  destruct (processFileCleanupJob_deletes_all (Demo2.cleanup []) "job-5" Demo.world)
    as (w' & Hrun & Hall).
  - exact demo_world_keyed.
  - reflexivity.
  - intros i. reflexivity.
  - exists w'. split.
    + rewrite Hrun. vm_compute. reflexivity.
    + destruct (Hall "file-2" Demo.file2) as (Hrow & Hobj & _);
        [vm_compute; reflexivity|vm_compute; reflexivity|].
      split; [exact Hrow|]. apply Hobj; [reflexivity|discriminate].
Defined.

End MoreRuns.

(** ** Jobs and requests, one after the other *)

Section Compositions.
Import Frame IngestionWorker IngestionSteps AgentService UploadService
       UploadConfirm.
Context (env : Env).

(** X21: two files of one user with the same bytes, ingested one after the
    other: the first ends as [COMPLETED] with its chunks, the second as
    [DUPLICATE] with the same hash and without an object or a chunk of its
    own, and the object of the first stays. *)
Theorem second_upload_is_duplicate (job1 job2 id1 id2 : string) (rec1 rec2 : File)
    (byteArray : Bytes) (w : World) :
  allAnswer env ->
  keyed w ->
  files w !! id1 = Some rec1 -> files w !! id2 = Some rec2 ->
  id1 <> id2 -> userId rec1 = userId rec2 -> fileKey rec1 <> fileKey rec2 ->
  bucket w !! fileKey rec1 = Some (mkS3Object (Some byteArray)) ->
  bucket w !! fileKey rec2 = Some (mkS3Object (Some byteArray)) ->
  noDuplicate id1 rec1 (sha256hex env byteArray) w ->
  trimIsEmpty (extractedText env (mimeType rec1) byteArray) = false ->
  exists w1 w2,
    processJob env job1 id1 w = (Ok tt, w1) /\
    processJob env job2 id2 w1 = (Ok tt, w2) /\
    files w2 !! id1 = Some (with_status COMPLETED
                              (with_hash (sha256hex env byteArray) rec1)) /\
    files w2 !! id2 = Some (with_hash (sha256hex env byteArray)
                              (with_status DUPLICATE rec2)) /\
    bucket w2 !! fileKey rec1 = Some (mkS3Object (Some byteArray)) /\
    bucket w2 !! fileKey rec2 = None /\
    documents w2
    = documents w ++
      List.map (chunkRow env (userId rec1) id1 (originalName rec1))
               (createDocuments env (extractedText env (mimeType rec1) byteArray)).
Proof.
  intros Hall Hkeyed Hrow1 Hrow2 Hids Huser Hkeys Hobj1 Hobj2 Hno Hblank.
  destruct (processJob_ingests_run env job1 id1 rec1 byteArray w Hall Hrow1 Hobj1
              Hno Hblank) as (w1 & Hrun1 & Hf1 & Hd1 & Hb1).
  set (h := sha256hex env byteArray) in *.
  assert (Hrow2' : files w1 !! id2 = Some rec2).
  { rewrite Hf1, lookup_insert_ne; [exact Hrow2|exact Hids]. }
  assert (Hobj2' : bucket w1 !! fileKey rec2 = Some (mkS3Object (Some byteArray))).
  { now rewrite Hb1. }
  destruct (afterDownload_duplicate env id2 rec2 (with_status PROCESSING rec2)
              (with_status COMPLETED (with_hash h rec1)) id1 byteArray
              (downloaded id2 rec2 (started job2 id2 w1)) Hall)
    as (w2 & Hrun2 & Hf2 & Hd2 & Hb2).
  { apply lookup_insert_eq. }
  { simpl. rewrite lookup_insert_ne by congruence. rewrite Hf1.
    apply lookup_insert_eq. }
  { unfold duplicateOf. simpl. rewrite Huser, !String.eqb_refl. simpl.
    rewrite (Hkeyed _ _ Hrow1). apply negb_true_iff, String.eqb_neq, Hids. }
  exists w1, w2. split; [exact Hrun1|]. split.
  { rewrite processJob_unfold. unfold tryCatch.
    rewrite (processJob_try_afterDownload env id2 rec2 byteArray
               (started job2 id2 w1) Hrow2' Hobj2') by apply Hall.
    now rewrite Hrun2. }
  simpl in *. rewrite Hf2, Hd2, Hb2, Hf1, Hd1, Hb1. repeat split.
  - rewrite insert_insert_eq, lookup_insert_ne by congruence.
    apply lookup_insert_eq.
  - now rewrite insert_insert_eq, lookup_insert_eq.
  - rewrite lookup_delete_ne by congruence. exact Hobj1.
  - apply lookup_delete_eq.
Qed.

(** X22: the reservation pattern from end to end: a valid request reserves
    a row, the confirmation of the owner puts one job for it on the queue,
    and once the bytes are under the reserved key the job for it indexes the
    file: the row is [COMPLETED] with its hash, and the chunks of the text
    are in the table under the user; the filter of the retrieval lets such a
    chunk through for the uploader, and for another reader exactly when the
    row was reserved as public. *)
Theorem upload_confirm_ingest (fileName fileType : string) (fileSize : Z)
    (isPublic : bool) (user : User) (byteArray : Bytes) (jobId : string)
    (queue : list Job) (w : World) :
  allAnswer env ->
  includes allowedFileTypes fileType = true ->
  (fileSize <= maxFileSize)%Z ->
  u_id user <> EmptyString ->
  files w !! newFileId env = None ->
  map_Forall (fun _ f => duplicateOf (u_id user) (sha256hex env byteArray)
                                     (newFileId env) f = false) (files w) ->
  trimIsEmpty (extractedText env fileType byteArray) = false ->
  let fid := newFileId env in
  let key := "users/" +:+ u_id user +:+ "/" +:+ uuidv4 env +:+ "-" +:+
             sanitize fileName in
  exists w1,
    generateSignedUrl env fileName fileType fileSize isPublic user w
    = (Ok (presignPut env key, key, fid), w1) /\
    let w2 := set_bucket (insert key (mkS3Object (Some byteArray))) w1 in
    confirmUpload None None fid user (mkSys w2 queue)
    = (Ok ("Ingestion started", fid), mkSys w2 (queue ++ [mkJob "ingest" fid])) /\
    exists w3 row,
      processJob env jobId fid w2 = (Ok tt, w3) /\
      files w3 !! fid = Some row /\ status row = COMPLETED /\
      fileHash row = Some (sha256hex env byteArray) /\
      Store.isPublic row = finalIsPublic isPublic user /\
      documents w3
      = documents w ++
        List.map (chunkRow env (u_id user) fid fileName)
                 (createDocuments env (extractedText env fileType byteArray)) /\
      forall c reader,
        let d := chunkRow env (u_id user) fid fileName c in
        where_ reader (d, files w3 !! doc_fileId d)
        = String.eqb (u_id user) reader || finalIsPublic isPublic user.
Proof.
  intros Hall Htype Hsize Hid Hfresh Hno Hblank fid key.
  destruct (generateSignedUrl_run env fileName fileType fileSize isPublic user w
              Htype Hsize Hid (Hall _) Hfresh) as (w1 & Hrun & Hf1 & Hd1 & Hb1).
  rewrite (Hall OpPresignPut) in Hrun. fold key in Hrun, Hf1. fold fid in Hrun, Hf1.
  exists w1. split; [exact Hrun|]. intros w2.
  set (row0 := mkFile fid key fileName None fileType PENDING (u_id user)
                      (finalIsPublic isPublic user)) in *.
  assert (Hrow2 : files w2 !! fid = Some row0).
  { subst w2. simpl. rewrite Hf1. apply lookup_insert_eq. }
  split.
  { unfold confirmUpload, addIngestionJob. simpl sys_world. rewrite Hrow2.
    simpl. rewrite String.eqb_refl. reflexivity. }
  destruct (processJob_ingests_run env jobId fid row0 byteArray w2 Hall Hrow2)
    as (w3 & Hrun3 & Hf3 & Hd3 & Hb3).
  { subst w2. simpl. apply lookup_insert_eq. }
  { unfold noDuplicate. subst w2. simpl. rewrite Hf1.
    apply map_Forall_insert_2; [|exact Hno].
    unfold duplicateOf. simpl. now rewrite andb_false_r. }
  { exact Hblank. }
  exists w3, (with_status COMPLETED (with_hash (sha256hex env byteArray) row0)).
  split; [exact Hrun3|]. split; [rewrite Hf3; apply lookup_insert_eq|].
  split; [reflexivity|]. split; [reflexivity|]. split; [reflexivity|].
  split.
  { rewrite Hd3. subst w2. simpl. now rewrite Hd1. }
  intros c reader d. unfold where_. simpl. rewrite Hf3, lookup_insert_eq.
  reflexivity.
Qed.

End Compositions.

Section CompositionRuns.
Import Frame IngestionWorker IngestionSteps AgentService UploadService
       UploadConfirm.

(** The memo of carol, uploaded twice. *)
Lemma second_upload_is_duplicate_witness :
  exists w1 w2,
    processJob (Demo.env []) "job-1" "file-5" Demo2.twins = (Ok tt, w1) /\
    processJob (Demo.env []) "job-2" "file-8" w1 = (Ok tt, w2) /\
    (status <$> files w2 !! "file-5") = Some COMPLETED /\
    (status <$> files w2 !! "file-8") = Some DUPLICATE /\
    bucket w2 !! "users/carol/8-memo-copy.txt" = None /\
    length (documents w2) = 5.
Proof.
  destruct (second_upload_is_duplicate (Demo.env []) "job-1" "job-2" "file-5" "file-8"
              Demo.file5 Demo2.file8 Demo.memo Demo2.twins)
    as (w1 & w2 & Hrun1 & Hrun2 & Hf1 & Hf2 & _ & Hb & Hd).
  - intros o. reflexivity.
  - apply (bool_decide_unpack _). vm_compute. exact I.
  - vm_compute; reflexivity.
  - vm_compute; reflexivity.
  - discriminate.
  - reflexivity.
  - discriminate.
  - vm_compute; reflexivity.
  - vm_compute; reflexivity.
  - apply (bool_decide_unpack _). vm_compute. exact I.
  - vm_compute; reflexivity.
  - exists w1, w2. split; [exact Hrun1|]. split; [exact Hrun2|].
    rewrite Hf1, Hf2, Hd. split; [reflexivity|]. split; [reflexivity|].
    split; [exact Hb|]. vm_compute. reflexivity.
Defined.

(** Carol, a contributor, uploads the memo as a public file. *)
Lemma upload_confirm_ingest_witness :
  exists w1,
    generateSignedUrl (Demo.env []) "memo.txt" "text/plain" 1000 true Demo.carol
                      Demo.world
    = (Ok ("https://store.example/put/users/carol/4f1c-memo.txt",
           "users/carol/4f1c-memo.txt", "file-9"), w1) /\
    exists w3 row,
      processJob (Demo.env []) "job-9" "file-9"
        (set_bucket (insert "users/carol/4f1c-memo.txt" (mkS3Object (Some Demo.memo)))
                    w1)
      = (Ok tt, w3) /\
      files w3 !! "file-9" = Some row /\ status row = COMPLETED /\
      Store.isPublic row = true /\
      length (documents w3) = 5.
Proof.
  destruct (upload_confirm_ingest (Demo.env []) "memo.txt" "text/plain" 1000 true
              Demo.carol Demo.memo "job-9" [] Demo.world)
    as (w1 & Hrun & _ & w3 & row & Hjob & Hrow & Hstatus & _ & Hpublic & Hd & _).
  - intros o. reflexivity.
  - vm_compute; reflexivity.
  - vm_compute; discriminate.
  - discriminate.
  - vm_compute; reflexivity.
  - apply (bool_decide_unpack _). vm_compute. exact I.
  - vm_compute; reflexivity.
  - exists w1. split; [exact Hrun|]. exists w3, row.
    split; [exact Hjob|]. split; [exact Hrow|]. split; [exact Hstatus|].
    split; [rewrite Hpublic; reflexivity|]. rewrite Hd. vm_compute. reflexivity.
Defined.

End CompositionRuns.
